(** * ColorPickerComponent: the colour synchronisation engine

    A shallow embedding of [src/color-picker-component.js] and the
    properties its specification states about it.

    Conventions of the embedding.
    - A JavaScript number that the code only ever uses as an integer (a
      colour channel read from a pixel or parsed from a field, a pixel
      coordinate, a canvas dimension) is a [Z].  A double holds every
      integer up to 2^53 in magnitude, so the arithmetic of the code on
      such numbers is the arithmetic of [Z] as long as it stays below that:
      always for the bytes of a pixel and for coordinates, and for the
      numbers typed in the fields up to 2^25 in magnitude (the squared
      distance of [syncLoupeToColor] is the largest intermediate result).
      [NaN], where the code tests for it, is the [None] of an [option Z].
    - A number the code computes in floating point (the hue, the HSL
      coordinates) is a primitive binary64 [float], the format of a
      JavaScript number.
    - A string is a [string]; the characters the code inspects are ASCII.
    - The component is a record threaded through the methods; the events it
      dispatches and the callback it calls are appended to a trace.
    - What the 2D context draws over the plane (the ring of the loupe) is
      not in the source: it is a parameter of the methods that render.

    The domain of the embedding.
    - The numbers typed in the fields, written in the seed and given as
      sizes are followed where they are integers below 2^53 in magnitude
      ([safeInteger]): there [parseInt], [Number] and [toString] are the
      functions on [Z] of this file.  Beyond, the code goes on with a
      rounded double, with [Infinity] or with a text in exponent notation.
      The search of [syncLoupeToColor] computes on [Z] what the code
      computes in doubles; the two agree while the squared distances are
      below 2^53, which they are for the bytes of a bitmap and a target up
      to 2^25 in magnitude ([exactDistance], [bytesIn]).
    - The [width] and the [height] of the state are also the size of the
      canvas of the plane and the width of the hue bar: that is what the
      browser makes of the markup when they are positive.  A negative size
      stays in the state while the canvases take a default size, which the
      embedding does not follow.
    A property that holds only there carries the bound or the positive
    size as a hypothesis. *)

From Stdlib Require Import ZArith List String Ascii Bool Lia Floats.
Import ListNotations.

Local Open Scope string_scope.
Local Open Scope list_scope.
Local Open Scope Z_scope.

(** ** The JavaScript built-ins the component calls *)

Module JS.

(** *** Characters and digits *)

(** The value of a character as a digit, for radices up to 36. *)
Definition digitValue (c : ascii) : option Z :=
  let n := Z.of_nat (nat_of_ascii c) in
  if (48 <=? n) && (n <=? 57) then Some (n - 48)
  else if (97 <=? n) && (n <=? 122) then Some (n - 97 + 10)
  else if (65 <=? n) && (n <=? 90) then Some (n - 65 + 10)
  else None.

Definition digitIn (radix : Z) (c : ascii) : option Z :=
  match digitValue c with
  | Some d => if d <? radix then Some d else None
  | None => None
  end.

(** The digit [d] of a radix up to 36, as [Number.prototype.toString]
    writes it: lower case. *)
Definition digitChar (d : Z) : ascii :=
  if d <? 10 then ascii_of_nat (Z.to_nat (48 + d))
  else ascii_of_nat (Z.to_nat (97 + d - 10)).

(** White space that [parseInt] skips (the ASCII part of StrWhiteSpaceChar). *)
Definition isWhiteSpace (c : ascii) : bool :=
  let n := nat_of_ascii c in
  (Nat.eqb n 32 || Nat.eqb n 9 || Nat.eqb n 10 || Nat.eqb n 11
   || Nat.eqb n 12 || Nat.eqb n 13)%bool.

Fixpoint trimStart (s : string) : string :=
  match s with
  | String c rest => if isWhiteSpace c then trimStart rest else s
  | EmptyString => s
  end.

(** *** parseInt *)

(** The longest prefix of digits of the radix, folded into its value;
    [None] when the prefix is empty. *)
Fixpoint parseDigits (radix : Z) (s : string) (acc : option Z) : option Z :=
  match s with
  | String c rest =>
      match digitIn radix c with
      | Some d =>
          parseDigits radix rest
            (Some (match acc with Some a => a * radix + d | None => d end))
      | None => acc
      end
  | EmptyString => acc
  end.

Definition stripHexPrefix (s : string) : option string :=
  match s with
  | String "0" (String "x" rest) => Some rest
  | String "0" (String "X" rest) => Some rest
  | _ => None
  end.

(** [parseInt(string, radix)]; [radix = None] is a call without a radix.
    The result [None] is [NaN].  The result [Some n] is the integer the
    digits write, which is the number the code gets when it is below 2^53
    in magnitude; beyond, the code gets the nearest double or [Infinity]
    (not [NaN] either). *)
Definition parseInt (s : string) (radix : option Z) : option Z :=
  let s := trimStart s in
  let '(sign, s) :=
    match s with
    | String "-" rest => (-1, rest)
    | String "+" rest => (1, rest)
    | _ => (1, s)
    end in
  let '(r, s) :=
    match radix with
    | None | Some 0 =>
        match stripHexPrefix s with
        | Some rest => (16, rest)
        | None => (10, s)
        end
    | Some 16 =>
        match stripHexPrefix s with
        | Some rest => (16, rest)
        | None => (16, s)
        end
    | Some r => (r, s)
    end in
  if (r <? 2) || (36 <? r) then None
  else option_map (Z.mul sign) (parseDigits r s None).

Definition isNaN (x : option Z) : bool :=
  match x with None => true | Some _ => false end.

(** *** Number.prototype.toString, padStart, join *)

Fixpoint toDigits (fuel : nat) (radix n : Z) (acc : string) : string :=
  match fuel with
  | O => acc
  | S fuel' =>
      let acc' := String (digitChar (n mod radix)) acc in
      if n / radix =? 0 then acc' else toDigits fuel' radix (n / radix) acc'
  end.

(** [n.toString(radix)] of an integer [n] below 2^53 in magnitude (from
    1e21 on the code writes an exponent in radix 10). *)
Definition toString (radix n : Z) : string :=
  let digits m := toDigits (S (Z.to_nat (Z.log2 m))) radix m "" in
  if n <? 0 then String "-" (digits (- n)) else digits n.

Fixpoint repeatChar (n : nat) (c : ascii) : string :=
  match n with
  | O => ""
  | S n' => String c (repeatChar n' c)
  end.

(** [s.padStart(n, c)] for a one-character filler. *)
Definition padStart (n : nat) (c : ascii) (s : string) : string :=
  String.append (repeatChar (n - String.length s) c) s.

(** [parts.join("")]. *)
Definition join (parts : list string) : string :=
  fold_right String.append "" parts.

(** *** Floating point *)

Local Open Scope float_scope.

(** The double nearest to an integer (exact up to 2^53). *)
Definition ofZ (z : Z) : float :=
  SF2Prim (binary_normalize prec emax z 0 false).

(** [Math.round]: the nearest integer, a tie going up; NaN, the infinities
    and the zeros are returned as they are, and a result of zero keeps the
    sign of the argument. *)
Definition Math_round (x : float) : float :=
  match Prim2SF x with
  | S754_finite s m e =>
      if (0 <=? e)%Z then x
      else
        let v := if s then Z.neg m else Z.pos m in
        let q := ((2 * v + 2 ^ (- e)) / 2 ^ (1 - e))%Z in
        if (q =? 0)%Z then (if s then neg_zero else zero) else ofZ q
  | _ => x
  end.

(** [Math.max] and [Math.min] of two doubles: NaN is contagious and
    [+0] is greater than [-0]. *)
Definition fmax (a b : float) : float :=
  if is_nan a || is_nan b then nan
  else if a <? b then b
  else if b <? a then a
  else if get_sign a then b else a.

Definition fmin (a b : float) : float :=
  if is_nan a || is_nan b then nan
  else if a <? b then a
  else if b <? a then b
  else if get_sign a then a else b.

Definition Math_max3 (a b c : float) : float := fmax (fmax a b) c.
Definition Math_min3 (a b c : float) : float := fmin (fmin a b) c.

(** The conversion a [Uint8ClampedArray] applies to a stored number:
    NaN becomes 0, the value is clamped to [0, 255] and rounded to the
    nearest integer, a tie going to the even one. *)
Definition toUint8Clamp (x : float) : Z :=
  match Prim2SF x with
  | S754_finite false m e =>
      if (0 <=? e)%Z then Z.min 255 (Z.pos m * 2 ^ e)
      else
        let d := (2 ^ (- e))%Z in
        let q := (Z.pos m / d)%Z in
        let r := (Z.pos m mod d)%Z in
        let n :=
          if (2 * r <? d)%Z then q
          else if (d <? 2 * r)%Z then (q + 1)%Z
          else if Z.even q then q else (q + 1)%Z in
        Z.min 255 n
  | S754_infinity false => 255%Z
  | _ => 0%Z
  end.

End JS.

(** An integer that a JavaScript number holds exactly and that [toString]
    writes in plain digits: one below 2^53 in magnitude
    ([Number.isSafeInteger]).  On the texts of these integers
    [JS.parseInt] is the [parseInt] of the code, and on these integers
    [JS.toString] is its [toString]. *)
Definition safeInteger (n : Z) : Prop := - 2 ^ 53 < n < 2 ^ 53.

(** ** Colour math: the pure conversions of the component *)

(** [rgbToHex(r, g, b)]:
    ["#" + [r, g, b].map(x => x.toString(16).padStart(2, "0")).join("")]. *)
Definition rgbToHex (r g b : Z) : string :=
  String "#"
    (JS.join (map (fun x => JS.padStart 2 "0" (JS.toString 16 x)) [r; g; b])).

(** A character of the class [[a-f\d]] (or [[0-9A-F]]) under the [i] flag. *)
Definition isHexDigit (c : ascii) : bool :=
  match JS.digitIn 16 c with Some _ => true | None => false end.

Definition string2 (c1 c2 : ascii) : string := String c1 (String c2 "").

(** The three groups of [/^#?([a-f\d]{2})([a-f\d]{2})([a-f\d]{2})$/i.exec(hex)],
    [None] when the expression does not match. *)
Definition execHexToRgb (hex : string) : option (string * string * string) :=
  let body := match hex with String "#" rest => rest | _ => hex end in
  match body with
  | String c1 (String c2 (String c3 (String c4 (String c5 (String c6 ""))))) =>
      if forallb isHexDigit [c1; c2; c3; c4; c5; c6]
      then Some (string2 c1 c2, string2 c3 c4, string2 c5 c6)
      else None
  | _ => None
  end.

(** [parseInt(group, 16)] of a matched group: two hexadecimal digits, so a
    number; the default 0 stands for a [NaN] that cannot occur. *)
Definition parseGroup (group : string) : Z :=
  match JS.parseInt group (Some 16) with Some n => n | None => 0 end.

(** [hexToRgb(hex)]: the three channels, or [None] for [null]. *)
Definition hexToRgb (hex : string) : option (Z * Z * Z) :=
  match execHexToRgb hex with
  | Some (g1, g2, g3) => Some (parseGroup g1, parseGroup g2, parseGroup g3)
  | None => None
  end.

(** [/^#[0-9A-F]{6}$/i.test(hex)], the test of the hex field's handler. *)
Definition testHexField (hex : string) : bool :=
  match hex with
  | String "#"
      (String c1 (String c2 (String c3 (String c4 (String c5 (String c6 "")))))) =>
      forallb isHexDigit [c1; c2; c3; c4; c5; c6]
  | _ => false
  end.

Section HSL.
Local Open Scope float_scope.

(** The inner function [hue2rgb(p, q, t)] of [hslToRgb]. *)
Definition hue2rgb (p q t : float) : float :=
  let t := if t <? 0 then t + 1 else t in
  let t := if 1 <? t then t - 1 else t in
  if t <? 1 / 6 then p + (q - p) * 6 * t
  else if t <? 1 / 2 then q
  else if t <? 2 / 3 then p + (q - p) * (2 / 3 - t) * 6
  else p.

(** [hslToRgb(h, s, l)]; the three results are the doubles that
    [Math.round] returns. *)
Definition hslToRgb (h s l : float) : float * float * float :=
  let '(r, g, b) :=
    if s =? 0 then (l, l, l)
    else
      let q := if l <? 0.5 then l * (1 + s) else l + s - l * s in
      let p := 2 * l - q in
      (hue2rgb p q (h + 1 / 3), hue2rgb p q h, hue2rgb p q (h - 1 / 3)) in
  (JS.Math_round (r * 255), JS.Math_round (g * 255), JS.Math_round (b * 255)).

(** [rgbToHsl(r, g, b)].  In the [switch (max)] the cases are tried in
    order with [===]; when none matches [h] stays [undefined] and
    [h /= 6] makes it [NaN]. *)
Definition rgbToHsl (r g b : Z) : float * float * float :=
  let r := JS.ofZ r / 255 in
  let g := JS.ofZ g / 255 in
  let b := JS.ofZ b / 255 in
  let max := JS.Math_max3 r g b in
  let min := JS.Math_min3 r g b in
  let l := (max + min) / 2 in
  if max =? min then (0, 0, l)
  else
    let d := max - min in
    let s := if 0.5 <? l then d / (2 - max - min) else d / (max + min) in
    let h :=
      if max =? r then (g - b) / d + (if g <? b then 6 else 0)
      else if max =? g then (b - r) / d + 2
      else if max =? b then (r - g) / d + 4
      else nan in
    (h / 6, s, l).

(** The hue in degrees that [syncHueWithRgb] stores:
    [Math.round(h * 360)] for the [h] of [rgbToHsl(r, g, b)]. *)
Definition hueOfRgb (r g b : Z) : float :=
  let '(h, _, _) := rgbToHsl r g b in JS.Math_round (h * 360).
End HSL.

(** ** The rendering surface *)

(** [0, 1, ..., n - 1]: the values a [for (let i = 0; i < n; i++)] visits. *)
Definition range (n : Z) : list Z := map Z.of_nat (seq 0 (Z.to_nat n)).

(** The bytes that the loops of [renderCanvasWithHue(hue)] write into the
    image data of a [width] x [height] plane: row after row, four bytes
    (red, green, blue, alpha) a pixel, each stored through the clamping
    conversion of the array. *)
Definition planePixel (hue : float) (width height x y : Z) : list Z :=
  let sat := (JS.ofZ x / JS.ofZ (width - 1))%float in
  let light := (1 - JS.ofZ y / JS.ofZ (height - 1))%float in
  let '(r, g, b) := hslToRgb (hue / 360)%float sat light in
  [JS.toUint8Clamp r; JS.toUint8Clamp g; JS.toUint8Clamp b; 255].

Definition planeData (hue : float) (width height : Z) : list Z :=
  flat_map
    (fun y => flat_map (fun x => planePixel hue width height x y) (range width))
    (range height).

(** [data[i]] of an image data array; an index past the end reads
    [undefined], which no loop of the component reaches, and is 0 here. *)
Definition byteAt (data : list Z) (i : Z) : Z := nth (Z.to_nat i) data 0.

(** The red, green and blue bytes of the pixel at [(x, y)] in the data of an
    image [width] pixels wide. *)
Definition pixelAt (data : list Z) (width x y : Z) : Z * Z * Z :=
  let i := (y * width + x) * 4 in
  (byteAt data i, byteAt data (i + 1), byteAt data (i + 2)).

(** ** The component *)

(** The [detail] of a colour change: [{ r, g, b, hex }]. *)
Record detail := mkDetail {
  detail_r : Z;
  detail_g : Z;
  detail_b : Z;
  detail_hex : string
}.

(** What a listener that runs during a dispatch can read off the component:
    the hue, the loupe position, the values of the four fields and the
    bitmap of the plane. *)
Record view := mkView {
  view_hue : float;
  view_loupe : Z * Z;
  view_rgbInputs : string * string * string;
  view_hexInput : string;
  view_canvas : list Z
}.

(** What the component does to the outside, in the order it does it. *)
Inductive effect :=
| Callback (d : detail) (v : view)      (* this.onColorChangeCallback(d) *)
| ColorChange (d : detail) (v : view)   (* dispatchEvent("color-change", d) *)
| Ready                                 (* dispatchEvent("ready") *)
| PreviewBackground (hex : string).     (* previewBox.style.backgroundColor = hex *)

(** [this.state], the elements cached by [cacheElements] and the trace.
    [loupe.size], [huebarHeight], [huebarLoupeSize] and [title] only shape
    what is drawn; the pixels of the hue bar are never read back. *)
Record state := mkState {
  width : Z;
  height : Z;
  selectedColor : option string;
  isMouseDown : bool;
  loupe : Z * Z;
  hue : float;
  draggingHue : bool;
  onColorChangeCallback : bool;         (* typeof callback === 'function' *)
  rgbInputs : string * string * string; (* the values of #r, #g, #b *)
  hexInput : string;                     (* the value of #hex *)
  canvas : list Z;                       (* the bytes of the plane's bitmap *)
  trace : list effect
}.

Definition observe (st : state) : view :=
  mkView (hue st) (loupe st) (rgbInputs st) (hexInput st) (canvas st).

Definition set_loupe (p : Z * Z) (st : state) : state :=
  mkState (width st) (height st) (selectedColor st) (isMouseDown st) p
    (hue st) (draggingHue st) (onColorChangeCallback st) (rgbInputs st)
    (hexInput st) (canvas st) (trace st).

Definition set_hue (h : float) (st : state) : state :=
  mkState (width st) (height st) (selectedColor st) (isMouseDown st)
    (loupe st) h (draggingHue st) (onColorChangeCallback st) (rgbInputs st)
    (hexInput st) (canvas st) (trace st).

Definition set_isMouseDown (v : bool) (st : state) : state :=
  mkState (width st) (height st) (selectedColor st) v (loupe st) (hue st)
    (draggingHue st) (onColorChangeCallback st) (rgbInputs st) (hexInput st)
    (canvas st) (trace st).

Definition set_draggingHue (v : bool) (st : state) : state :=
  mkState (width st) (height st) (selectedColor st) (isMouseDown st)
    (loupe st) (hue st) v (onColorChangeCallback st) (rgbInputs st)
    (hexInput st) (canvas st) (trace st).

Definition set_onColorChange (v : bool) (st : state) : state :=
  mkState (width st) (height st) (selectedColor st) (isMouseDown st)
    (loupe st) (hue st) (draggingHue st) v (rgbInputs st) (hexInput st)
    (canvas st) (trace st).

Definition set_fields (rgb : string * string * string) (hex : string)
    (st : state) : state :=
  mkState (width st) (height st) (selectedColor st) (isMouseDown st)
    (loupe st) (hue st) (draggingHue st) (onColorChangeCallback st) rgb hex
    (canvas st) (trace st).

Definition set_canvas (data : list Z) (st : state) : state :=
  mkState (width st) (height st) (selectedColor st) (isMouseDown st)
    (loupe st) (hue st) (draggingHue st) (onColorChangeCallback st)
    (rgbInputs st) (hexInput st) data (trace st).

Definition emit (e : effect) (st : state) : state :=
  mkState (width st) (height st) (selectedColor st) (isMouseDown st)
    (loupe st) (hue st) (draggingHue st) (onColorChangeCallback st)
    (rgbInputs st) (hexInput st) (canvas st) (trace st ++ [e]).

(** The attributes the constructor reads; [None] is an absent attribute. *)
Record attributes := mkAttributes {
  attr_width : option string;
  attr_height : option string;
  attr_selectedcolor : option string
}.

(** [parseInt(this.getAttribute(name)) || fallback]: [getAttribute] gives
    [null] for an absent attribute, which [parseInt] reads as the text
    "null"; [NaN] and 0 are falsy.  As for [JS.parseInt], the result is the
    number of the code when it is below 2^53 in magnitude. *)
Definition parseIntOr (a : option string) (fallback : Z) : Z :=
  match JS.parseInt (match a with Some s => s | None => "null" end) None with
  | Some 0 | None => fallback
  | Some n => n
  end.

(** The constructor.  The fields and the canvas exist from [renderMarkup]
    on; until then they are empty here. *)
Definition constructor (a : attributes) : state :=
  {| width := parseIntOr (attr_width a) 300;
     height := parseIntOr (attr_height a) 150;
     selectedColor := attr_selectedcolor a;
     isMouseDown := false;
     loupe := (150, 75);
     hue := 0%float;
     draggingHue := false;
     onColorChangeCallback := false;
     rgbInputs := ("", "", "");
     hexInput := "";
     canvas := [];
     trace := [] |}.

(** *** The seed string *)

Fixpoint splitComma (s cur : string) : list string :=
  match s with
  | "" => [cur]
  | String c rest =>
      if Ascii.eqb c ","
      then cur :: splitComma rest ""
      else splitComma rest (String.append cur (String c ""))
  end.

(** [rgbString.split(',')]. *)
Definition split (s : string) : list string := splitComma s "".

Fixpoint allWhiteSpace (s : string) : bool :=
  match s with
  | "" => true
  | String c rest => JS.isWhiteSpace c && allWhiteSpace rest
  end.

Fixpoint decimalPrefix (s : string) (acc : option Z) : option Z * string :=
  match s with
  | String c rest =>
      match JS.digitIn 10 c with
      | Some d =>
          decimalPrefix rest
            (Some (match acc with Some a => a * 10 + d | None => d end))
      | None => (acc, s)
      end
  | "" => (acc, s)
  end.

(** [Number(s)] where it is an integer below 2^53 written in decimal:
    optional white space around an optional sign and digits, or white space
    alone (which is 0).  [None] is every other string: the code then goes on
    with [NaN], a fraction, a rounded double or another numeric literal,
    which this embedding does not follow. *)
Definition NumberInteger (s : string) : option Z :=
  match JS.trimStart s with
  | "" => Some 0
  | String c rest as t =>
      let '(sign, digits) :=
        if Ascii.eqb c "-" then (-1, rest)
        else if Ascii.eqb c "+" then (1, rest)
        else (1, t) in
      match decimalPrefix digits None with
      | (Some v, tail) =>
          if allWhiteSpace tail && (v <? 2 ^ 53) then Some (sign * v)
          else None
      | (None, _) => None
      end
  end.

(** [const [r, g, b] = rgbString.split(',').map(Number)] for a seed whose
    first three pieces are integers that [NumberInteger] reads.  [None] is
    every other seed, and no more than that: with fewer than three pieces
    the code throws in [rgbToHex] (a missing component is [undefined]);
    with three pieces of which one is not such an integer it goes on, with
    a [NaN] or a number that this embedding does not follow.  No property
    below is drawn from a [None]. *)
Definition parseSeed (rgbString : string) : option (Z * Z * Z) :=
  match map NumberInteger (split rgbString) with
  | Some r :: Some g :: Some b :: _ => Some (r, g, b)
  | _ => None
  end.

(** ** The inverse search of [syncLoupeToColor] *)

(** [bestDist]: [Infinity] until a first pixel is taken. *)
Inductive distance :=
| Infinity
| Finite (d : Z).

(** [dist < bestDist]. *)
Definition closer (dist : Z) (bestDist : distance) : bool :=
  match bestDist with
  | Infinity => true
  | Finite d => dist <? d
  end.

(** [bestDist === 0]. *)
Definition isZero (bestDist : distance) : bool :=
  match bestDist with
  | Infinity => false
  | Finite d => d =? 0
  end.

Record best := mkBest {
  bestX : Z;
  bestY : Z;
  bestDist : distance
}.

(** [pr === pg && pg === pb]. *)
Definition isGray (p : Z * Z * Z) : bool :=
  let '(pr, pg, pb) := p in (pr =? pg) && (pg =? pb).

(** [dr * dr + dg * dg + db * db], on [Z]: what the doubles of the code
    give while the sum is below 2^53 (see [exactDistance]). *)
Definition sqDist (p : Z * Z * Z) (r g b : Z) : Z :=
  let '(pr, pg, pb) := p in
  let dr := pr - r in
  let dg := pg - g in
  let db := pb - b in
  dr * dr + dg * dg + db * db.

Section Scan.
Variables (data : list Z) (width : Z) (r g b : Z).

Definition targetIsGrayscale : bool := (r =? g) && (g =? b).

(** The inner loop over the [x] still to visit in row [y]; it ends at the
    end of the row or at the [break] on a distance of 0. *)
Fixpoint scanRow (y : Z) (xs : list Z) (bst : best) : best :=
  match xs with
  | [] => bst
  | x :: xs' =>
      let p := pixelAt data width x y in
      if targetIsGrayscale && negb (isGray p) then scanRow y xs' bst
      else
        let dist := sqDist p r g b in
        if closer dist (bestDist bst) then
          let bst' := mkBest x y (Finite dist) in
          if dist =? 0 then bst' else scanRow y xs' bst'
        else scanRow y xs' bst
  end.

(** The outer loop over the rows still to visit; it ends after the last
    row or at the [break] on [bestDist === 0]. *)
Fixpoint scanRows (ys : list Z) (bst : best) : best :=
  match ys with
  | [] => bst
  | y :: ys' =>
      let bst' := scanRow y (range width) bst in
      if isZero (bestDist bst') then bst' else scanRows ys' bst'
  end.
End Scan.

(** The position [(bestX, bestY)] the two loops end with, started from
    [bestX = 0, bestY = 0, bestDist = Infinity]. *)
Definition locate (data : list Z) (width height r g b : Z) : Z * Z :=
  let bst :=
    scanRows data width r g b (range height) (mkBest 0 0 Infinity) in
  (bestX bst, bestY bst).

(** ** The methods *)

Section Engine.

(** The loupe ring: what [ctx.arc(x, y, size, 0, 2 * Math.PI)] and
    [ctx.stroke()] leave of a bitmap of the given width and height when
    the loupe is at the given position.  The canvas decides it. *)
Variable strokeLoupe : Z -> Z -> Z * Z -> list Z -> list Z.

(** The hue bar is only drawn, never read. *)
Definition renderHueBar (st : state) : state := st.

Definition renderCanvasWithHue (h : float) (st : state) : state :=
  set_canvas
    (strokeLoupe (width st) (height st) (loupe st)
       (planeData h (width st) (height st)))
    st.

(** [getColorAt(x, y)]; [getImageData] gives transparent black for a
    pixel outside the bitmap. *)
Definition getColorAt (x y : Z) (st : state) : Z * Z * Z :=
  if (0 <=? x) && (x <? width st) && (0 <=? y) && (y <? height st)
  then pixelAt (canvas st) (width st) x y
  else (0, 0, 0).

Definition updateColorFields (r g b : Z) (st : state) : state :=
  set_fields (JS.toString 10 r, JS.toString 10 g, JS.toString 10 b)
    (rgbToHex r g b) st.

Definition syncHueWithRgb (r g b : Z) (st : state) : state :=
  let max := Z.max (Z.max r g) b in
  let min := Z.min (Z.min r g) b in
  if max - min <? 10 then st
  else renderHueBar (set_hue (hueOfRgb r g b) st).

Definition fireColorChange (rgb : Z * Z * Z) (st : state) : state :=
  let '(r, g, b) := rgb in
  let hex := rgbToHex r g b in
  let d := mkDetail r g b hex in
  let st :=
    if onColorChangeCallback st then emit (Callback d (observe st)) st
    else st in
  let st := emit (ColorChange d (observe st)) st in
  emit (PreviewBackground hex) st.

Definition syncLoupeToColor (r g b : Z) (st : state) : state :=
  let st :=
    set_loupe (locate (canvas st) (width st) (height st) r g b) st in
  renderCanvasWithHue (hue st) st.

(** [updateLoupeFromEvent(e, allowHueSync)], with
    [ox = e.clientX - rect.left] and [oy = e.clientY - rect.top].  The
    [canvas.width] and [canvas.height] of the code are the [width] and the
    [height] of the state, as they are on a component of positive size. *)
Definition updateLoupeFromEvent (ox oy : Z) (allowHueSync : bool)
    (st : state) : state :=
  let x := Z.max 0 (Z.min (width st - 1) ox) in
  let y := Z.max 0 (Z.min (height st - 1) oy) in
  if (x <? 0) || (y <? 0) || (width st <=? x) || (height st <=? y) then st
  else
    let st := set_loupe (x, y) st in
    let st := renderCanvasWithHue (hue st) st in
    let '(r, g, b) := getColorAt x y st in
    let st := updateColorFields r g b st in
    let st := if allowHueSync then syncHueWithRgb r g b st else st in
    fireColorChange (r, g, b) st.

(** [updateHueFromEvent(e)], with [ox = e.clientX - rect.left].  The
    [rect.width] and the [hueBar.width] of the code are the [width] of the
    state: [cacheElements] and the style sheet size the bar so, on a
    component of positive width. *)
Definition updateHueFromEvent (ox : Z) (st : state) : state :=
  let x := Z.max 0 (Z.min (width st - 1) ox) in
  let h := JS.Math_round (JS.ofZ x / JS.ofZ (width st) * 360)%float in
  let st := set_hue h st in
  let st := renderHueBar st in
  let st := renderCanvasWithHue h st in
  let '(r, g, b) := getColorAt (fst (loupe st)) (snd (loupe st)) st in
  let st := updateColorFields r g b st in
  fireColorChange (r, g, b) st.

Definition handleRgbInput (st : state) : state :=
  let '(vr, vg, vb) := rgbInputs st in
  match JS.parseInt vr None, JS.parseInt vg None, JS.parseInt vb None with
  | Some r, Some g, Some b =>
      let st := updateColorFields r g b st in
      let st := syncHueWithRgb r g b st in
      let st := renderCanvasWithHue (hue st) st in
      let st := syncLoupeToColor r g b st in
      fireColorChange (r, g, b) st
  | _, _, _ => st
  end.

Definition handleHexInput (st : state) : state :=
  let hex := hexInput st in
  if negb (testHexField hex) then st
  else
    match hexToRgb hex with
    | Some (r, g, b) =>
        let st := updateColorFields r g b st in
        let st := syncHueWithRgb r g b st in
        let st := renderCanvasWithHue (hue st) st in
        let st := syncLoupeToColor r g b st in
        fireColorChange (r, g, b) st
    | None => st (* rgb.r of null throws; the test above excludes it *)
    end.

(** [updateSelectedColor(rgbString)]; the outer [None] is a seed that
    [parseSeed] does not read. *)
Definition updateSelectedColor (rgbString : option string) (st : state)
    : option state :=
  match rgbString with
  | None | Some "" => Some st
  | Some s =>
      match parseSeed s with
      | Some (r, g, b) =>
          let st := updateColorFields r g b st in
          let st := syncHueWithRgb r g b st in
          let st := renderCanvasWithHue (hue st) st in
          Some (fireColorChange (r, g, b) st)
      | None => None
      end
  end.

Definition initializeDefaultColorFromCanvas (st : state) : state :=
  let '(r, g, b) := getColorAt (fst (loupe st)) (snd (loupe st)) st in
  let st := updateColorFields r g b st in
  let st := syncHueWithRgb r g b st in
  fireColorChange (r, g, b) st.

(** [renderMarkup] and [cacheElements]: fresh, empty fields and a blank
    bitmap of the configured size. *)
Definition renderMarkup (st : state) : state :=
  set_canvas (repeat 0 (Z.to_nat (4 * (width st * height st))))
    (set_fields ("", "", "") "" st).

Definition connectedCallback (st : state) : option state :=
  let st := renderMarkup st in
  let st := renderHueBar st in
  let st := renderCanvasWithHue (hue st) st in
  let seeded :=
    match selectedColor st with
    | None | Some "" => Some (initializeDefaultColorFromCanvas st)
    | Some s => updateSelectedColor (Some s) st
    end in
  option_map (emit Ready) seeded.

Definition onMouseDown (ox oy : Z) (st : state) : state :=
  updateLoupeFromEvent ox oy true (set_isMouseDown true st).

Definition onMouseMove (ox oy : Z) (st : state) : state :=
  if negb (isMouseDown st) then st
  else updateLoupeFromEvent ox oy false st.

Definition onMouseUp (st : state) : state := set_isMouseDown false st.

Definition onHueMouseDown (ox : Z) (st : state) : state :=
  updateHueFromEvent ox (set_draggingHue true st).

Definition onHueMouseMove (ox : Z) (st : state) : state :=
  if negb (draggingHue st) then st else updateHueFromEvent ox st.

Definition onHueMouseUp (st : state) : state := set_draggingHue false st.

(** *** The entry points *)

(** What can happen to a connected component.  A change of a field comes
    with the text the user left in the fields. *)
Inductive input :=
| PlanePress (ox oy : Z)            (* mousedown on the plane *)
| PlaneDrag (ox oy : Z)             (* mousemove on the plane *)
| HuePress (ox : Z)                 (* mousedown on the hue bar *)
| HueDrag (ox : Z)                  (* mousemove on the hue bar *)
| Release                           (* mouseup on the document *)
| RgbCommit (vr vg vb : string)     (* change of #r, #g or #b *)
| HexCommit (hex : string)          (* change of #hex *)
| SetOnColorChange (isFunction : bool). (* picker.onColorChange = ... *)

Definition step (i : input) (st : state) : state :=
  match i with
  | PlanePress ox oy => onMouseDown ox oy st
  | PlaneDrag ox oy => onMouseMove ox oy st
  | HuePress ox => onHueMouseDown ox st
  | HueDrag ox => onHueMouseMove ox st
  | Release => onHueMouseUp (onMouseUp st)
  | RgbCommit vr vg vb =>
      handleRgbInput (set_fields (vr, vg, vb) (hexInput st) st)
  | HexCommit hex => handleHexInput (set_fields (rgbInputs st) hex st)
  | SetOnColorChange isFunction => set_onColorChange isFunction st
  end.

Definition run (inputs : list input) (st : state) : state :=
  fold_left (fun st i => step i st) inputs st.

End Engine.

(** ** A concrete canvas, to run the component on examples *)

(** A canvas without anti-aliasing: the stroke of line width 2 along the
    circle of radius 14 paints opaque white every pixel whose distance to
    the loupe is between 13 and 15, and leaves the others as they are. *)
Definition ringStroke (w h : Z) (p : Z * Z) (data : list Z) : list Z :=
  let '(cx, cy) := p in
  flat_map
    (fun y =>
       flat_map
         (fun x =>
            let d2 := (x - cx) * (x - cx) + (y - cy) * (y - cy) in
            if (169 <=? d2) && (d2 <=? 225) then [255; 255; 255; 255]
            else
              let '(pr, pg, pb) := pixelAt data w x y in
              [pr; pg; pb; byteAt data ((y * w + x) * 4 + 3)])
         (range w))
    (range h).

(** ** The vocabulary of the specification *)

(** A hex string without its optional leading [#]. *)
Definition stripHash (s : string) : string :=
  match s with String "#" rest => rest | _ => s end.

(** A well-formed hex string: an optional leading [#] and exactly six
    hexadecimal digits in either case. *)
Definition validHex6 (s : string) : bool :=
  Nat.eqb (String.length (stripHash s)) 6
  && forallb isHexDigit (list_ascii_of_string (stripHash s)).

Definition toLower (c : ascii) : ascii :=
  let n := nat_of_ascii c in
  if Nat.leb 65 n && Nat.leb n 90 then ascii_of_nat (n + 32) else c.

Fixpoint mapString (f : ascii -> ascii) (s : string) : string :=
  match s with
  | "" => ""
  | String c rest => String (f c) (mapString f rest)
  end.

(** The normal form of a well-formed hex string: lower case behind a [#]. *)
Definition normalize (s : string) : string :=
  String "#" (mapString toLower (stripHash s)).

(** The colour the four fields show. *)
Definition shows (st : state) (r g b : Z) : Prop :=
  rgbInputs st = (JS.toString 10 r, JS.toString 10 g, JS.toString 10 b)
  /\ hexInput st = rgbToHex r g b.

(** [max(r, g, b) - min(r, g, b)]. *)
Definition spread (r g b : Z) : Z :=
  Z.max (Z.max r g) b - Z.min (Z.min r g) b.

(** Invariant 2 of the specification, for an operation that starts with
    the hue [before] and ends with the hue [after] and the colour
    [(r, g, b)]. *)
Definition hueRule (r g b : Z) (before after : float) : Prop :=
  (10 <= spread r g b -> after = hueOfRgb r g b)
  /\ (spread r g b < 10 -> after = before).

(** Invariant 3 of the specification. *)
Definition inBounds (st : state) : Prop :=
  0 <= fst (loupe st) <= width st - 1 /\ 0 <= snd (loupe st) <= height st - 1.

(** The invocations that pass the guards of their entry point, on a
    component whose canvas has the size of the state: a press on the plane
    always does on a plane of positive size. *)
Definition accepted (i : input) (st : state) : bool :=
  match i with
  | PlanePress _ _ => (0 <? width st) && (0 <? height st)
  | PlaneDrag _ _ => isMouseDown st && (0 <? width st) && (0 <? height st)
  | HuePress _ => true
  | HueDrag _ => draggingHue st
  | Release => false
  | RgbCommit vr vg vb =>
      negb (JS.isNaN (JS.parseInt vr None) || JS.isNaN (JS.parseInt vg None)
            || JS.isNaN (JS.parseInt vb None))
  | HexCommit hex => testHexField hex
  | SetOnColorChange _ => false
  end.

(** The colour changes among the effects of a trace, in order. *)
Definition colorChanges (t : list effect) : list (detail * view) :=
  flat_map
    (fun e => match e with ColorChange d v => [(d, v)] | _ => [] end) t.

(** The entry points: connecting the component, and the edits of a
    connected component. *)
Inductive entry :=
| Connect
| Edit (i : input).

(** [performs e st st']: the invocation [e] is accepted in the state [st]
    and ends in the state [st']. *)
Definition performs (strokeLoupe : Z -> Z -> Z * Z -> list Z -> list Z)
    (e : entry) (st st' : state) : Prop :=
  match e with
  | Connect => connectedCallback strokeLoupe st = Some st'
  | Edit i => accepted i st = true /\ st' = step strokeLoupe i st
  end.


(** [(x, y)] comes before [(x', y')] when the plane is read row by row,
    each row from the left. *)
Definition before (x y x' y' : Z) : Prop := y < y' \/ (y = y' /\ x < x').


(** A canvas whose ring leaves the gray pixels of a bitmap gray (a white
    stroke over a gray is a gray). *)
Definition keepsGray (strokeLoupe : Z -> Z -> Z * Z -> list Z -> list Z)
    : Prop :=
  forall w h p data x y,
    0 <= x < w -> 0 <= y < h ->
    isGray (pixelAt data w x y) = true ->
    isGray (pixelAt (strokeLoupe w h p data) w x y) = true.

(** [(x, y)] is a pixel of a plane [w] wide and [h] high. *)
Definition inside (w h x y : Z) : Prop := 0 <= x < w /\ 0 <= y < h.

(** A pixel the search may take: any pixel for a chromatic target, a gray
    pixel for a gray target. *)
Definition eligible (data : list Z) (w r g b x y : Z) : bool :=
  negb (targetIsGrayscale r g b && negb (isGray (pixelAt data w x y))).

(** The squared distance of the pixel at [(x, y)] to the target. *)
Definition distAt (data : list Z) (w r g b x y : Z) : Z :=
  sqDist (pixelAt data w x y) r g b.

(** [(bx, by_)] is the nearest match of the specification: a pixel the
    search may take, at the least distance of the target among these, and
    the first at that distance in scan order. *)
Definition nearest (data : list Z) (w h r g b bx by_ : Z) : Prop :=
  inside w h bx by_
  /\ eligible data w r g b bx by_ = true
  /\ forall x y,
       inside w h x y -> eligible data w r g b x y = true ->
       distAt data w r g b bx by_ <= distAt data w r g b x y
       /\ (before x y bx by_ ->
           distAt data w r g b bx by_ < distAt data w r g b x y).

(** ** The vocabulary of the proofs *)

(** A text of decimal digits only. *)
Fixpoint allDecimal (s : string) : bool :=
  match s with
  | "" => true
  | String c rest =>
      match JS.digitIn 10 c with
      | Some _ => allDecimal rest
      | None => false
      end
  end.

(** The loops have visited the pixels before [(cx, cy)] and [bst] is what
    they hold: nothing when none of these could be taken, else the nearest
    match among them. *)
Definition scanned (data : list Z) (w h r g b cx cy : Z) (bst : best)
    : Prop :=
  match bestDist bst with
  | Infinity =>
      bestX bst = 0 /\ bestY bst = 0
      /\ forall x y,
           inside w h x y -> before x y cx cy ->
           eligible data w r g b x y = false
  | Finite d =>
      inside w h (bestX bst) (bestY bst)
      /\ before (bestX bst) (bestY bst) cx cy
      /\ eligible data w r g b (bestX bst) (bestY bst) = true
      /\ d = distAt data w r g b (bestX bst) (bestY bst)
      /\ forall x y,
           inside w h x y -> before x y cx cy ->
           eligible data w r g b x y = true ->
           d <= distAt data w r g b x y
           /\ (before x y (bestX bst) (bestY bst) ->
               d < distAt data w r g b x y)
  end.

(** The twenty-two hexadecimal digits. *)
Definition hexChars : list ascii :=
  list_ascii_of_string "0123456789abcdefABCDEF".

(** One channel: two digits are read as a number and written back in lower
    case, padded to two. *)
Definition chunk (x : Z) : string := JS.padStart 2 "0" (JS.toString 16 x).

(** What [fireColorChange] adds to the trace for the colour [(r, g, b)],
    when it runs with the callback set or not ([cb]) and the component
    reads [v]. *)
Definition notifications (r g b : Z) (cb : bool) (v : view) : list effect :=
  let d := mkDetail r g b (rgbToHex r g b) in
  (if cb then [Callback d v] else [])
  ++ [ColorChange d v; PreviewBackground (rgbToHex r g b)].

Definition add_trace (es : list effect) (st : state) : state :=
  mkState (width st) (height st) (selectedColor st) (isMouseDown st)
    (loupe st) (hue st) (draggingHue st) (onColorChangeCallback st)
    (rgbInputs st) (hexInput st) (canvas st) (trace st ++ es).

(** The continuation that [handleRgbInput] and [handleHexInput] share once
    they have their three numbers. *)
Definition commit (strokeLoupe : Z -> Z -> Z * Z -> list Z -> list Z)
    (r g b : Z) (st : state) : state :=
  let st := updateColorFields r g b st in
  let st := syncHueWithRgb r g b st in
  let st := renderCanvasWithHue strokeLoupe (hue st) st in
  let st := syncLoupeToColor strokeLoupe r g b st in
  fireColorChange (r, g, b) st.

(** Where a pointer at offset [o] lands on an axis of [n] pixels:
    [Math.max(0, Math.min(n - 1, o))]. *)
Definition clamp (n o : Z) : Z := Z.max 0 (Z.min (n - 1) o).

(** The hue the bar gives for a pointer at offset [ox]. *)
Definition hueOfBar (w ox : Z) : float :=
  JS.Math_round (JS.ofZ (clamp w ox) / JS.ofZ w * 360)%float.

(** The hue an accepted invocation ends with, by entry point: the hue of
    the bar for the hue bar, the hue it started with for a drag on the
    plane, the resynchronised hue for the others. *)
Definition hueAfter (e : entry) (st : state) (r g b : Z) : float :=
  match e with
  | Edit (HuePress ox) | Edit (HueDrag ox) => hueOfBar (width st) ox
  | Edit (PlaneDrag _ _) => hue st
  | _ => if spread r g b <? 10 then hue st else hueOfRgb r g b
  end.

(** Where an accepted invocation leaves the loupe, by entry point: at the
    clamped pointer for the plane, where the search ends for a commit, where
    it was for the others. *)
Definition loupeAfter (e : entry) (st : state) (r g b : Z) (p : Z * Z)
    : Prop :=
  match e with
  | Edit (PlanePress ox oy) | Edit (PlaneDrag ox oy) =>
      p = (clamp (width st) ox, clamp (height st) oy)
  | Edit (RgbCommit _ _ _) | Edit (HexCommit _) =>
      exists data, p = locate data (width st) (height st) r g b
  | _ => p = loupe st
  end.

(** What an accepted invocation that ends with the colour [(r, g, b)]
    leaves behind. *)
Definition outcome (e : entry) (st st' : state) (r g b : Z) : Prop :=
  shows st' r g b
  /\ hue st' = hueAfter e st r g b
  /\ trace st'
     = trace st
       ++ notifications r g b (onColorChangeCallback st) (observe st')
       ++ match e with Connect => [Ready] | Edit _ => [] end
  /\ width st' = width st
  /\ height st' = height st
  /\ loupeAfter e st r g b (loupe st').


(** The pixel taken so far, if any, is a gray. *)
Definition grayKept (data : list Z) (width : Z) (bst : best) : Prop :=
  match bestDist bst with
  | Infinity => True
  | Finite _ => isGray (pixelAt data width (bestX bst) (bestY bst)) = true
  end.

(** A pixel has been taken. *)
Definition taken (bst : best) : Prop := bestDist bst <> Infinity.

(** The pixel taken so far is on the plane. *)
Definition onPlane (width height : Z) (bst : best) : Prop :=
  0 <= bestX bst < width /\ 0 <= bestY bst < height.

(** ** The data of the examples *)

(** A component connected on the concrete canvas, for the examples. *)
Definition connect (a : attributes) : state :=
  match connectedCallback ringStroke (constructor a) with
  | Some st => st
  | None => constructor a
  end.

(** A plane of 20 by 10 pixels, connected without a seed. *)
Definition small : attributes := mkAttributes (Some "20") (Some "10") None.

(** The left column of the plane has saturation 0: after a press at
    (0, 5) the colour is a gray. *)
Definition pressedGray : state := step ringStroke (PlanePress 0 5) (connect small).

(** A bitmap of three by two pixels in which the colour (1, 2, 3) comes
    three times, first at (1, 0). *)
Definition sixPixels : list Z :=
  [10; 20; 30; 255;   1; 2; 3; 255;   9; 9; 9; 255;
    1;  2;  3; 255;   5; 5; 5; 255;   1; 2; 3; 255].

(** Two pixels: (100, 100, 101), at distance 1 of the gray (100, 100, 100),
    and the black (0, 0, 0), at distance 30000. *)
Definition nearMiss : list Z := [100; 100; 101; 255;   0; 0; 0; 255].

(** ** The vocabulary of the further properties *)

(** The entry points that read the colour off the bitmap, under the loupe:
    the pointer on the plane or on the hue bar, and connecting without a
    seed. *)
Definition samples (e : entry) (st : state) : bool :=
  match e with
  | Connect =>
      match selectedColor st with Some (String _ _) => false | _ => true end
  | Edit (PlanePress _ _) | Edit (PlaneDrag _ _)
  | Edit (HuePress _) | Edit (HueDrag _) => true
  | Edit _ => false
  end.

(** The hue of the plane in the bitmap that an accepted invocation leaves.
    A press on the plane and connecting without a seed draw the plane and
    resynchronise the hue afterwards; the others draw it last. *)
Definition planeHueAfter (e : entry) (st st' : state) : float :=
  match e with
  | Edit (PlanePress _ _) => hue st
  | Connect =>
      match selectedColor st with Some (String _ _) => hue st' | _ => hue st end
  | Edit _ => hue st'
  end.

(** What no handler of the pointer, of the fields or of the callback
    touches but its own: the two flags of the gestures, the callback, the
    seed and the size. *)
Definition frame (st st' : state) : Prop :=
  isMouseDown st' = isMouseDown st
  /\ draggingHue st' = draggingHue st
  /\ onColorChangeCallback st' = onColorChangeCallback st
  /\ selectedColor st' = selectedColor st
  /\ width st' = width st
  /\ height st' = height st.

(** What the user sees of two components is the same: hue, loupe, bitmap
    and the four fields. *)
Definition sameLook (st1 st2 : state) : Prop :=
  hue st1 = hue st2 /\ loupe st1 = loupe st2 /\ canvas st1 = canvas st2
  /\ rgbInputs st1 = rgbInputs st2 /\ hexInput st1 = hexInput st2.

Definition isPlaneDrag (i : input) : bool :=
  match i with PlaneDrag _ _ => true | _ => false end.

Definition isHueDrag (i : input) : bool :=
  match i with HueDrag _ => true | _ => false end.

(** A press or a drag on the hue bar. *)
Definition onHueBar (i : input) : bool :=
  match i with HuePress _ | HueDrag _ => true | _ => false end.

(** A change of the RGB fields or of the hex field. *)
Definition isCommit (i : input) : bool :=
  match i with RgbCommit _ _ _ | HexCommit _ => true | _ => false end.

(** A drag [d] that goes on a gesture of the drags [ds] on the same
    surface: the plane or the hue bar. *)
Definition gesture (d : input) (ds : list input) : bool :=
  match d with
  | PlaneDrag _ _ => forallb isPlaneDrag ds
  | HueDrag _ => forallb isHueDrag ds
  | _ => false
  end.

(** The number of the inputs of a history that are accepted, each in the
    state the ones before it leave. *)
Fixpoint acceptedCount (strokeLoupe : Z -> Z -> Z * Z -> list Z -> list Z)
    (inputs : list input) (st : state) : nat :=
  match inputs with
  | [] => 0%nat
  | i :: rest =>
      ((if accepted i st then 1 else 0)
       + acceptedCount strokeLoupe rest (step strokeLoupe i st))%nat
  end.

(** A seed that [connectedCallback] is followed on: none, the empty one, or
    one that [parseSeed] reads. *)
Definition seedReadable (a : attributes) : bool :=
  match attr_selectedcolor a with
  | None | Some "" => true
  | Some s => match parseSeed s with Some _ => true | None => false end
  end.

(** The seed that names the colour (r, g, b): the three numbers in decimal
    with commas between them, as in [selectedcolor="244,83,255"]. *)
Definition seedText (r g b : Z) : string :=
  (JS.toString 10 r ++ "," ++ JS.toString 10 g ++ "," ++ JS.toString 10 b)
  %string.

(** A text without a comma. *)
Fixpoint noComma (s : string) : bool :=
  match s with
  | "" => true
  | String c rest => negb (Ascii.eqb c ",") && noComma rest
  end.

(** A byte. *)
Definition isByte (x : Z) : Prop := 0 <= x <= 255.

(** The pixels of a bitmap [w] wide and [h] high are bytes, as those of an
    image data array are. *)
Definition bytesIn (data : list Z) (w h : Z) : bool :=
  forallb
    (fun y =>
       forallb
         (fun x =>
            let '(pr, pg, pb) := pixelAt data w x y in
            (0 <=? pr) && (pr <=? 255) && (0 <=? pg) && (pg <=? 255)
            && (0 <=? pb) && (pb <=? 255))
         (range w))
    (range h).

(** A target whose squared distance to every triple of bytes is below 2^53:
    the doubles of [syncLoupeToColor] then hold the differences, the
    squares and their sum exactly, and compare as the integers do. *)
Definition exactDistance (r g b : Z) : Prop :=
  Z.abs r <= 2 ^ 25 /\ Z.abs g <= 2 ^ 25 /\ Z.abs b <= 2 ^ 25.


(** The integer a double holds, rounded towards zero; 0 for NaN and the
    infinities. *)
Definition wholeOf (x : float) : Z :=
  match Prim2SF x with
  | S754_finite s m e =>
      (if s then -1 else 1)
      * (if 0 <=? e then Z.pos m * 2 ^ e else Z.pos m / 2 ^ (- e))
  | _ => 0
  end.

(** The hue that [updateHueFromEvent] computes at the clamped offset [x] of
    a bar [w] wide is a whole number of degrees from 0 to 359. *)
Definition barDegrees (w x : Z) : bool :=
  let h := JS.Math_round (JS.ofZ x / JS.ofZ w * 360)%float in
  let n := wholeOf h in
  PrimFloat.Leibniz.eqb h (JS.ofZ n) && (0 <=? n) && (n <=? 359).

(** A component with the hue 126, set on the hue bar of the 20 by 10
    plane. *)
Definition onHue126 : state := step ringStroke (HuePress 7) (connect small).

(** * Properties *)

(** ** Evaluations of the built-ins *)

Example parseInt_300 : JS.parseInt "300" None = Some 300.
Proof. reflexivity. Qed.

Example parseInt_minus1 : JS.parseInt "-1" None = Some (-1).
Proof. reflexivity. Qed.

Example parseInt_x : JS.parseInt "x" None = None.
Proof. reflexivity. Qed.

Example parseInt_prefix : JS.parseInt " 12px" None = Some 12.
Proof. reflexivity. Qed.

Example parseInt_hex : JS.parseInt "fF" (Some 16) = Some 255.
Proof. reflexivity. Qed.

Example toString_300 : JS.toString 16 300 = "12c".
Proof. reflexivity. Qed.

Example toString_minus1 : JS.toString 16 (-1) = "-1".
Proof. reflexivity. Qed.

Example toString_dec : JS.toString 10 1205 = "1205".
Proof. reflexivity. Qed.

Example Math_round_half : JS.Math_round 2.5%float = 3%float.
Proof. reflexivity. Qed.

Example Math_round_neg_half : JS.Math_round (-2.5)%float = (-2)%float.
Proof. reflexivity. Qed.

Example toUint8Clamp_tie : JS.toUint8Clamp 126.5%float = 126.
Proof. reflexivity. Qed.

Example parseSeed_readme : parseSeed "244,83,255" = Some (244, 83, 255).
Proof. reflexivity. Qed.

Example parseSeed_short : parseSeed "255,0" = None.
Proof. reflexivity. Qed.

(** ** Strings *)

Lemma append_empty_r (s : string) : (s ++ "")%string = s.
Proof. induction s as [|c s IH]; cbn; [reflexivity | now rewrite IH]. Qed.

Lemma length_append (s t : string) :
  String.length (s ++ t)%string = (String.length s + String.length t)%nat.
Proof. induction s as [|c s IH]; cbn; [reflexivity | now rewrite IH]. Qed.

(** ** Hex strings *)

Lemma isHexDigit_hexChars (c : ascii) :
  isHexDigit c = existsb (Ascii.eqb c) hexChars.
Proof.
  destruct c as [b0 b1 b2 b3 b4 b5 b6 b7].
  destruct b0, b1, b2, b3, b4, b5, b6, b7; reflexivity.
Qed.

Lemma isHexDigit_In (c : ascii) : isHexDigit c = true -> In c hexChars.
Proof.
  rewrite isHexDigit_hexChars, existsb_exists.
  intros [x [Hin Heq]]. apply Ascii.eqb_eq in Heq. now subst.
Qed.

Lemma chunk_parseGroup_table :
  forallb
    (fun c1 =>
       forallb
         (fun c2 =>
            String.eqb (chunk (parseGroup (string2 c1 c2)))
              (string2 (toLower c1) (toLower c2)))
         hexChars)
    hexChars = true.
Proof. vm_compute. reflexivity. Qed.

Lemma chunk_parseGroup (c1 c2 : ascii) :
  isHexDigit c1 = true -> isHexDigit c2 = true ->
  chunk (parseGroup (string2 c1 c2)) = string2 (toLower c1) (toLower c2).
Proof.
  intros H1 H2.
  pose proof chunk_parseGroup_table as T.
  rewrite forallb_forall in T.
  specialize (T c1 (isHexDigit_In c1 H1)).
  rewrite forallb_forall in T.
  specialize (T c2 (isHexDigit_In c2 H2)).
  now apply String.eqb_eq in T.
Qed.

Lemma rgbToHex_chunks (r g b : Z) :
  rgbToHex r g b = String "#" (chunk r ++ chunk g ++ chunk b)%string.
Proof.
  unfold rgbToHex, JS.join, chunk. cbn [map fold_right].
  now rewrite append_empty_r.
Qed.

(** A well-formed hex string, taken apart. *)
Lemma validHex6_inv (s : string) :
  validHex6 s = true ->
  exists c1 c2 c3 c4 c5 c6,
    stripHash s =
      String c1 (String c2 (String c3 (String c4 (String c5 (String c6 "")))))
    /\ forallb isHexDigit [c1; c2; c3; c4; c5; c6] = true.
Proof.
  unfold validHex6. intros H. apply andb_prop in H. destruct H as [Hl Hd].
  apply Nat.eqb_eq in Hl.
  destruct (stripHash s) as [|c1 [|c2 [|c3 [|c4 [|c5 [|c6 [|c7 t]]]]]]];
    try discriminate.
  exists c1, c2, c3, c4, c5, c6. split; [reflexivity | exact Hd].
Qed.

Lemma execHexToRgb_stripHash (s : string) :
  execHexToRgb s =
    match stripHash s with
    | String c1 (String c2 (String c3 (String c4 (String c5 (String c6 ""))))) =>
        if forallb isHexDigit [c1; c2; c3; c4; c5; c6]
        then Some (string2 c1 c2, string2 c3 c4, string2 c5 c6)
        else None
    | _ => None
    end.
Proof. reflexivity. Qed.

(** [hexToRgb] answers exactly on the well-formed strings. *)
Lemma hexToRgb_valid (s : string) :
  validHex6 s = true <-> hexToRgb s <> None.
Proof.
  unfold hexToRgb. rewrite execHexToRgb_stripHash. split.
  - intros H. destruct (validHex6_inv s H) as (c1 & c2 & c3 & c4 & c5 & c6 & E & D).
    rewrite E, D. discriminate.
  - unfold validHex6.
    destruct (stripHash s) as [|c1 [|c2 [|c3 [|c4 [|c5 [|c6 [|c7 t]]]]]]];
      try (intros H; now elim H).
    cbn [String.length Nat.eqb list_ascii_of_string andb].
    destruct (forallb isHexDigit [c1; c2; c3; c4; c5; c6]);
      [reflexivity | intros H; now elim H].
Qed.

(** C2. For every well-formed hex string (an optional leading [#] and
    exactly six hexadecimal digits in any case), [hexToRgb] returns a triple
    and [rgbToHex] of that triple is the string in lower case behind a [#]. *)
Theorem C2_rgbToHex_inverts_hexToRgb (s : string) :
  validHex6 s = true ->
  exists r g b, hexToRgb s = Some (r, g, b) /\ rgbToHex r g b = normalize s.
Proof.
  intros H.
  destruct (validHex6_inv s H) as (c1 & c2 & c3 & c4 & c5 & c6 & E & D).
  unfold hexToRgb. rewrite execHexToRgb_stripHash, E, D.
  do 3 eexists. split; [reflexivity |].
  cbn [forallb] in D.
  repeat (apply andb_prop in D; destruct D as [? D]).
  rewrite rgbToHex_chunks, !chunk_parseGroup by assumption.
  unfold normalize. rewrite E. reflexivity.
Qed.

Lemma C2_witness :
  validHex6 "#fF0a9C" = true
  /\ exists r g b,
       hexToRgb "#fF0a9C" = Some (r, g, b)
       /\ rgbToHex r g b = normalize "#fF0a9C".
Proof.
  split; [reflexivity | apply (C2_rgbToHex_inverts_hexToRgb "#fF0a9C")].
  reflexivity.
Defined.

(** ** The text of a channel outside the byte range *)

Lemma list_ascii_of_string_append (s t : string) :
  list_ascii_of_string (s ++ t)%string
  = list_ascii_of_string s ++ list_ascii_of_string t.
Proof. induction s as [|c s IH]; cbn; [reflexivity | now rewrite IH]. Qed.

Lemma length_list_ascii (s : string) :
  List.length (list_ascii_of_string s) = String.length s.
Proof. induction s as [|c s IH]; cbn; [reflexivity | now rewrite IH]. Qed.

Lemma testHexField_inv (body : string) :
  testHexField (String "#" body) = true ->
  String.length body = 6%nat
  /\ forallb isHexDigit (list_ascii_of_string body) = true.
Proof.
  destruct body as [|c1 [|c2 [|c3 [|c4 [|c5 [|c6 [|c7 t]]]]]]];
    cbn [testHexField]; try discriminate.
  intros H. split; [reflexivity | exact H].
Qed.

Lemma length_toDigits (fuel : nat) (radix n : Z) (acc : string) :
  (String.length acc <= String.length (JS.toDigits fuel radix n acc))%nat.
Proof.
  revert n acc. induction fuel as [|fuel IH]; intros n acc; cbn [JS.toDigits].
  - lia.
  - destruct (n / radix =? 0).
    + cbn [String.length]. lia.
    + etransitivity; [| apply IH]. cbn [String.length]. lia.
Qed.

Lemma length_padStart (n : nat) (c : ascii) (s : string) :
  String.length (JS.padStart n c s) = Nat.max n (String.length s).
Proof.
  unfold JS.padStart. rewrite length_append.
  assert (L : forall k, String.length (JS.repeatChar k c) = k)
    by (induction k as [|k IH]; cbn; [reflexivity | now rewrite IH]).
  rewrite L. lia.
Qed.

Lemma length_chunk_ge2 (x : Z) : (2 <= String.length (chunk x))%nat.
Proof. unfold chunk. rewrite length_padStart. lia. Qed.

(** Three digits or more from 256 on. *)
Lemma length_chunk_large (x : Z) :
  256 <= x -> (3 <= String.length (chunk x))%nat.
Proof.
  intros Hx. unfold chunk. rewrite length_padStart.
  enough (3 <= String.length (JS.toString 16 x))%nat by lia.
  unfold JS.toString.
  destruct (Z.ltb_spec x 0) as [|_]; [lia |].
  assert (L : 8 <= Z.log2 x)
    by (change 8 with (Z.log2 256); now apply Z.log2_le_mono).
  destruct (Z.to_nat (Z.log2 x)) as [|[|k]] eqn:E; try lia.
  cbn [JS.toDigits].
  assert (Q1 : 16 <= x / 16) by (apply Z.div_le_lower_bound; lia).
  assert (Q2 : 1 <= x / 16 / 16) by (apply Z.div_le_lower_bound; lia).
  destruct (Z.eqb_spec (x / 16) 0) as [|_]; [lia |].
  destruct (Z.eqb_spec (x / 16 / 16) 0) as [|_]; [lia |].
  destruct (x / 16 / 16 / 16 =? 0); [cbn [String.length]; lia |].
  etransitivity; [| apply length_toDigits]. cbn [String.length]. lia.
Qed.

(** A minus sign in front below 0. *)
Lemma chunk_negative (x : Z) :
  x < 0 -> exists t, chunk x = String "-" t.
Proof.
  intros Hx. unfold chunk, JS.toString.
  destruct (Z.ltb_spec x 0) as [_|]; [| lia].
  set (d := JS.toDigits _ 16 (- x) "").
  assert (L : (1 <= String.length d)%nat).
  { subst d. cbn [JS.toDigits].
    destruct (- x / 16 =? 0); [cbn; lia |].
    etransitivity; [| apply length_toDigits]. cbn [String.length]. lia. }
  unfold JS.padStart. cbn [String.length].
  replace (2 - S (String.length d))%nat with 0%nat by lia.
  cbn. now exists d.
Qed.

(** The chunk of a channel is two hexadecimal digits only for a byte. *)
Lemma chunk_hex_pair_is_byte (x : Z) :
  String.length (chunk x) = 2%nat ->
  forallb isHexDigit (list_ascii_of_string (chunk x)) = true ->
  0 <= x <= 255.
Proof.
  intros L D.
  destruct (Z.ltb_spec x 0) as [Hneg|Hpos].
  - destruct (chunk_negative x Hneg) as [t E]. rewrite E in D.
    cbn in D. discriminate.
  - destruct (Z.leb_spec x 255) as [|Hbig]; [lia |].
    pose proof (length_chunk_large x). lia.
Qed.

(** The hex text of a triple is [#] and six hexadecimal digits only when
    the three channels are bytes. *)
Lemma rgbToHex_wellformed_bytes (r g b : Z) :
  testHexField (rgbToHex r g b) = true ->
  0 <= r <= 255 /\ 0 <= g <= 255 /\ 0 <= b <= 255.
Proof.
  rewrite rgbToHex_chunks. intros H.
  apply testHexField_inv in H. destruct H as [L D].
  rewrite !length_append in L.
  rewrite !list_ascii_of_string_append, !forallb_app in D.
  apply andb_prop in D. destruct D as [Dr D].
  apply andb_prop in D. destruct D as [Dg Db].
  pose proof (length_chunk_ge2 r). pose proof (length_chunk_ge2 g).
  pose proof (length_chunk_ge2 b).
  repeat split; apply chunk_hex_pair_is_byte; (lia || assumption).
Qed.

(** ** The methods, one by one *)

Lemma fireColorChange_eq (r g b : Z) (st : state) :
  fireColorChange (r, g, b) st
  = add_trace (notifications r g b (onColorChangeCallback st) (observe st)) st.
Proof.
  unfold fireColorChange, notifications, add_trace, emit, observe.
  destruct (onColorChangeCallback st) eqn:E; cbn; rewrite ?E;
    rewrite <- ?app_assoc; reflexivity.
Qed.

Lemma syncHueWithRgb_eq (r g b : Z) (st : state) :
  syncHueWithRgb r g b st
  = set_hue (if spread r g b <? 10 then hue st else hueOfRgb r g b) st.
Proof.
  unfold syncHueWithRgb, spread, renderHueBar.
  destruct (_ <? 10); [destruct st |]; reflexivity.
Qed.

Lemma colorChanges_app (t u : list effect) :
  colorChanges (t ++ u) = colorChanges t ++ colorChanges u.
Proof. apply flat_map_app. Qed.

Lemma colorChanges_notifications (r g b : Z) (cb : bool) (v : view) :
  colorChanges (notifications r g b cb v)
  = [(mkDetail r g b (rgbToHex r g b), v)].
Proof. destruct cb; reflexivity. Qed.

(** The hue a resynchronisation leaves obeys the rule of invariant 2. *)
Lemma hueRule_sync (r g b : Z) (h : float) :
  hueRule r g b h (if spread r g b <? 10 then h else hueOfRgb r g b).
Proof.
  unfold hueRule. destruct (Z.ltb_spec (spread r g b) 10); split; intros;
    (reflexivity || lia).
Qed.

Section EngineFacts.
Variable strokeLoupe : Z -> Z -> Z * Z -> list Z -> list Z.

Lemma handleRgbInput_commit (st : state) (vr vg vb : string) (r g b : Z) :
  rgbInputs st = (vr, vg, vb) ->
  JS.parseInt vr None = Some r ->
  JS.parseInt vg None = Some g ->
  JS.parseInt vb None = Some b ->
  handleRgbInput strokeLoupe st = commit strokeLoupe r g b st.
Proof.
  intros E Hr Hg Hb. unfold handleRgbInput. rewrite E, Hr, Hg, Hb.
  reflexivity.
Qed.

Lemma handleRgbInput_ignored (st : state) (vr vg vb : string) :
  rgbInputs st = (vr, vg, vb) ->
  JS.isNaN (JS.parseInt vr None) || JS.isNaN (JS.parseInt vg None)
  || JS.isNaN (JS.parseInt vb None) = true ->
  handleRgbInput strokeLoupe st = st.
Proof.
  intros E H. unfold handleRgbInput. rewrite E.
  destruct (JS.parseInt vr None), (JS.parseInt vg None),
    (JS.parseInt vb None); (reflexivity || discriminate).
Qed.

Lemma testHexField_hash (hex : string) :
  testHexField hex = true -> exists body, hex = String "#" body.
Proof.
  destruct hex as [|c0 body]; [discriminate |].
  intros H. exists body. f_equal.
  destruct c0 as [[] [] [] [] [] [] [] []]; (reflexivity || discriminate H).
Qed.

Lemma testHexField_validHex6 (hex : string) :
  testHexField hex = true -> validHex6 hex = true.
Proof.
  intros H. destruct (testHexField_hash hex H) as [body ->].
  apply testHexField_inv in H. destruct H as [L D].
  unfold validHex6. cbn [stripHash]. rewrite L, D. reflexivity.
Qed.

Lemma testHexField_hexToRgb (hex : string) :
  testHexField hex = true -> exists r g b, hexToRgb hex = Some (r, g, b).
Proof.
  intros H. apply testHexField_validHex6, hexToRgb_valid in H.
  destruct (hexToRgb hex) as [[[r g] b]|]; [now exists r, g, b | now elim H].
Qed.

Lemma invalid_testHexField (hex : string) :
  validHex6 hex = false -> testHexField hex = false.
Proof.
  intros H. destruct (testHexField hex) eqn:T; [| reflexivity].
  apply testHexField_validHex6 in T. congruence.
Qed.

Lemma handleHexInput_commit (st : state) (r g b : Z) :
  testHexField (hexInput st) = true ->
  hexToRgb (hexInput st) = Some (r, g, b) ->
  handleHexInput strokeLoupe st = commit strokeLoupe r g b st.
Proof.
  intros T E. unfold handleHexInput. rewrite T, E. reflexivity.
Qed.

Lemma handleHexInput_ignored (st : state) :
  testHexField (hexInput st) = false -> handleHexInput strokeLoupe st = st.
Proof. intros T. unfold handleHexInput. now rewrite T. Qed.

(** What a commit leaves: the fields show the colour, the hue is
    resynchronised, the loupe is where the search ends on the plane of that
    hue, and the trace has the notifications of the final state. *)
Lemma commit_eq (r g b : Z) (st : state) :
  let h := if spread r g b <? 10 then hue st else hueOfRgb r g b in
  let rendered :=
    strokeLoupe (width st) (height st) (loupe st)
      (planeData h (width st) (height st)) in
  let p := locate rendered (width st) (height st) r g b in
  let fields := (JS.toString 10 r, JS.toString 10 g, JS.toString 10 b) in
  commit strokeLoupe r g b st
  = mkState (width st) (height st) (selectedColor st) (isMouseDown st) p h
      (draggingHue st) (onColorChangeCallback st) fields (rgbToHex r g b)
      (strokeLoupe (width st) (height st) p
         (planeData h (width st) (height st)))
      (trace st
       ++ notifications r g b (onColorChangeCallback st)
            (mkView h p fields (rgbToHex r g b)
               (strokeLoupe (width st) (height st) p
                  (planeData h (width st) (height st))))).
Proof.
  cbv zeta. unfold commit. rewrite fireColorChange_eq, syncHueWithRgb_eq.
  reflexivity.
Qed.

Lemma clamp_range (n o : Z) : 0 < n -> 0 <= clamp n o <= n - 1.
Proof. unfold clamp. lia. Qed.

Lemma getColorAt_inside (x y : Z) (st : state) :
  0 <= x < width st -> 0 <= y < height st ->
  getColorAt x y st = pixelAt (canvas st) (width st) x y.
Proof.
  intros Hx Hy. unfold getColorAt.
  destruct (Z.leb_spec 0 x), (Z.ltb_spec x (width st)), (Z.leb_spec 0 y),
    (Z.ltb_spec y (height st)); (reflexivity || lia).
Qed.

(** A press or a drag on a plane of positive size: the loupe is at the
    clamped pointer, the colour is the pixel there on the plane of the
    current hue, and the hue is resynchronised only when asked. *)
Lemma updateLoupeFromEvent_eq (ox oy : Z) (sync : bool) (st : state)
    (r g b : Z) :
  0 < width st -> 0 < height st ->
  let p := (clamp (width st) ox, clamp (height st) oy) in
  let rendered :=
    strokeLoupe (width st) (height st) p
      (planeData (hue st) (width st) (height st)) in
  let h :=
    if sync then (if spread r g b <? 10 then hue st else hueOfRgb r g b)
    else hue st in
  let fields := (JS.toString 10 r, JS.toString 10 g, JS.toString 10 b) in
  pixelAt rendered (width st) (fst p) (snd p) = (r, g, b) ->
  updateLoupeFromEvent strokeLoupe ox oy sync st
  = mkState (width st) (height st) (selectedColor st) (isMouseDown st) p h
      (draggingHue st) (onColorChangeCallback st) fields (rgbToHex r g b)
      rendered
      (trace st
       ++ notifications r g b (onColorChangeCallback st)
            (mkView h p fields (rgbToHex r g b) rendered)).
Proof.
  intros Hw Hh. cbv zeta. intros E.
  pose proof (clamp_range (width st) ox Hw) as Cx.
  pose proof (clamp_range (height st) oy Hh) as Cy.
  unfold updateLoupeFromEvent. fold (clamp (width st) ox).
  fold (clamp (height st) oy).
  destruct (Z.ltb_spec (clamp (width st) ox) 0); [lia |].
  destruct (Z.ltb_spec (clamp (height st) oy) 0); [lia |].
  destruct (Z.leb_spec (width st) (clamp (width st) ox)); [lia |].
  destruct (Z.leb_spec (height st) (clamp (height st) oy)); [lia |].
  cbn [orb]. rewrite getColorAt_inside by (cbn; lia).
  cbn [canvas width height set_loupe renderCanvasWithHue set_canvas loupe hue].
  cbn [fst snd] in E. rewrite E.
  destruct sync; rewrite fireColorChange_eq, ?syncHueWithRgb_eq; reflexivity.
Qed.

(** A press or a drag on a plane without pixels is dropped by the guard. *)
Lemma updateLoupeFromEvent_empty (ox oy : Z) (sync : bool) (st : state) :
  width st <= 0 \/ height st <= 0 ->
  updateLoupeFromEvent strokeLoupe ox oy sync st = st.
Proof.
  intros H. unfold updateLoupeFromEvent.
  destruct (Z.ltb_spec (Z.max 0 (Z.min (width st - 1) ox)) 0); [lia |].
  destruct (Z.ltb_spec (Z.max 0 (Z.min (height st - 1) oy)) 0); [lia |].
  destruct (Z.leb_spec (width st) (Z.max 0 (Z.min (width st - 1) ox)));
    [reflexivity |].
  destruct (Z.leb_spec (height st) (Z.max 0 (Z.min (height st - 1) oy)));
    [reflexivity | lia].
Qed.

(** A press or a drag on the hue bar: the hue is the one of the bar, the
    plane is drawn again for it and the colour is sampled at the loupe,
    which stays. *)
Lemma updateHueFromEvent_eq (ox : Z) (st : state) (r g b : Z) :
  let h := hueOfBar (width st) ox in
  let rendered :=
    strokeLoupe (width st) (height st) (loupe st)
      (planeData h (width st) (height st)) in
  let fields := (JS.toString 10 r, JS.toString 10 g, JS.toString 10 b) in
  getColorAt (fst (loupe st)) (snd (loupe st)) (set_canvas rendered st)
  = (r, g, b) ->
  updateHueFromEvent strokeLoupe ox st
  = mkState (width st) (height st) (selectedColor st) (isMouseDown st)
      (loupe st) h (draggingHue st) (onColorChangeCallback st) fields
      (rgbToHex r g b) rendered
      (trace st
       ++ notifications r g b (onColorChangeCallback st)
            (mkView h (loupe st) fields (rgbToHex r g b) rendered)).
Proof.
  cbv zeta. intros E. unfold updateHueFromEvent. fold (clamp (width st) ox).
  fold (hueOfBar (width st) ox).
  unfold renderHueBar, renderCanvasWithHue.
  cbn [canvas width height set_hue set_canvas loupe hue].
  unfold getColorAt in *.
  cbn [canvas width height set_canvas set_hue] in *.
  rewrite E. rewrite fireColorChange_eq. reflexivity.
Qed.

(** Connecting without a seed: the colour is the pixel under the loupe on
    the plane of the current hue. *)
Lemma connectedCallback_default (st : state) (r g b : Z) :
  selectedColor st = None \/ selectedColor st = Some "" ->
  let rendered :=
    strokeLoupe (width st) (height st) (loupe st)
      (planeData (hue st) (width st) (height st)) in
  let h := if spread r g b <? 10 then hue st else hueOfRgb r g b in
  let fields := (JS.toString 10 r, JS.toString 10 g, JS.toString 10 b) in
  getColorAt (fst (loupe st)) (snd (loupe st)) (set_canvas rendered st)
  = (r, g, b) ->
  connectedCallback strokeLoupe st
  = Some
      (mkState (width st) (height st) (selectedColor st) (isMouseDown st)
         (loupe st) h (draggingHue st) (onColorChangeCallback st) fields
         (rgbToHex r g b) rendered
         (trace st
          ++ notifications r g b (onColorChangeCallback st)
               (mkView h (loupe st) fields (rgbToHex r g b) rendered)
          ++ [Ready])).
Proof.
  intros S. cbv zeta. intros E.
  unfold connectedCallback, renderMarkup, renderHueBar, renderCanvasWithHue.
  cbn [selectedColor set_canvas set_fields hue width height loupe].
  unfold set_canvas, set_fields in *.
  cbn [selectedColor hue width height loupe canvas isMouseDown draggingHue
       onColorChangeCallback rgbInputs hexInput trace] in *.
  destruct S as [S | S]; rewrite S; cbn [option_map];
    unfold initializeDefaultColorFromCanvas;
    cbn [loupe]; unfold getColorAt in *; cbn [width height canvas] in *;
    rewrite E, fireColorChange_eq, syncHueWithRgb_eq; unfold emit, add_trace;
    cbn; rewrite <- app_assoc; reflexivity.
Qed.

(** Connecting with a seed that reads as three integers: the colour is the
    seed and the loupe stays where the constructor put it. *)
Lemma connectedCallback_seed (st : state) (c : ascii) (s : string)
    (r g b : Z) :
  selectedColor st = Some (String c s) ->
  parseSeed (String c s) = Some (r, g, b) ->
  let h := if spread r g b <? 10 then hue st else hueOfRgb r g b in
  let fields := (JS.toString 10 r, JS.toString 10 g, JS.toString 10 b) in
  connectedCallback strokeLoupe st
  = Some
      (mkState (width st) (height st) (selectedColor st) (isMouseDown st)
         (loupe st) h (draggingHue st) (onColorChangeCallback st) fields
         (rgbToHex r g b)
         (strokeLoupe (width st) (height st) (loupe st)
            (planeData h (width st) (height st)))
         (trace st
          ++ notifications r g b (onColorChangeCallback st)
               (mkView h (loupe st) fields (rgbToHex r g b)
                  (strokeLoupe (width st) (height st) (loupe st)
                     (planeData h (width st) (height st))))
          ++ [Ready])).
Proof.
  intros S P. cbv zeta.
  unfold connectedCallback, renderMarkup, renderHueBar, renderCanvasWithHue.
  cbn [selectedColor set_canvas set_fields hue width height loupe].
  rewrite S. unfold updateSelectedColor. rewrite P.
  rewrite fireColorChange_eq, syncHueWithRgb_eq.
  unfold emit, add_trace, renderCanvasWithHue. cbn.
  rewrite <- app_assoc, S. reflexivity.
Qed.

Lemma connectedCallback_unread (st : state) (c : ascii) (s : string) :
  selectedColor st = Some (String c s) ->
  parseSeed (String c s) = None ->
  connectedCallback strokeLoupe st = None.
Proof.
  intros S P.
  unfold connectedCallback, renderMarkup, renderHueBar, renderCanvasWithHue.
  cbn [selectedColor set_canvas set_fields hue width height loupe].
  rewrite S. unfold updateSelectedColor. rewrite P. reflexivity.
Qed.

Ltac outcome_holds :=
  unfold outcome, shows, observe, hueAfter, loupeAfter;
  cbn [rgbInputs hexInput hue trace width height loupe
       onColorChangeCallback set_isMouseDown set_draggingHue set_fields];
  rewrite ?app_nil_r; repeat split; try reflexivity;
  eexists; reflexivity.

Lemma performs_outcome (e : entry) (st st' : state) :
  performs strokeLoupe e st st' -> exists r g b, outcome e st st' r g b.
Proof.
  destruct e as [|i]; cbn [performs].
  - intros H. destruct (selectedColor st) as [[|c s]|] eqn:S.
    + destruct (getColorAt (fst (loupe st)) (snd (loupe st))
                  (set_canvas
                     (strokeLoupe (width st) (height st) (loupe st)
                        (planeData (hue st) (width st) (height st))) st))
        as [[r g] b] eqn:E.
      rewrite (connectedCallback_default st r g b (or_intror S) E) in H.
      injection H as <-. exists r, g, b. outcome_holds.
    + destruct (parseSeed (String c s)) as [[[r g] b]|] eqn:P.
      * rewrite (connectedCallback_seed st c s r g b S P) in H.
        injection H as <-. exists r, g, b. outcome_holds.
      * rewrite (connectedCallback_unread st c s S P) in H. discriminate.
    + destruct (getColorAt (fst (loupe st)) (snd (loupe st))
                  (set_canvas
                     (strokeLoupe (width st) (height st) (loupe st)
                        (planeData (hue st) (width st) (height st))) st))
        as [[r g] b] eqn:E.
      rewrite (connectedCallback_default st r g b (or_introl S) E) in H.
      injection H as <-. exists r, g, b. outcome_holds.
  - intros [A ->]. destruct i as [ox oy|ox oy|ox|ox| |vr vg vb|hex|f];
      cbn [accepted step] in *.
    + apply andb_prop in A. destruct A as [Hw Hh].
      apply Z.ltb_lt in Hw, Hh. unfold onMouseDown.
      set (st1 := set_isMouseDown true st).
      destruct (pixelAt
                  (strokeLoupe (width st1) (height st1)
                     (clamp (width st1) ox, clamp (height st1) oy)
                     (planeData (hue st1) (width st1) (height st1)))
                  (width st1) (clamp (width st1) ox) (clamp (height st1) oy))
        as [[r g] b] eqn:E.
      rewrite (updateLoupeFromEvent_eq ox oy true st1 r g b Hw Hh E).
      exists r, g, b. subst st1. outcome_holds.
    + apply andb_prop in A. destruct A as [A Hh].
      apply andb_prop in A. destruct A as [Hd Hw].
      apply Z.ltb_lt in Hw, Hh. unfold onMouseMove. rewrite Hd. cbn [negb].
      destruct (pixelAt
                  (strokeLoupe (width st) (height st)
                     (clamp (width st) ox, clamp (height st) oy)
                     (planeData (hue st) (width st) (height st)))
                  (width st) (clamp (width st) ox) (clamp (height st) oy))
        as [[r g] b] eqn:E.
      rewrite (updateLoupeFromEvent_eq ox oy false st r g b Hw Hh E).
      exists r, g, b. outcome_holds.
    + unfold onHueMouseDown. set (st1 := set_draggingHue true st).
      destruct (getColorAt (fst (loupe st1)) (snd (loupe st1))
                  (set_canvas
                     (strokeLoupe (width st1) (height st1) (loupe st1)
                        (planeData (hueOfBar (width st1) ox) (width st1)
                           (height st1))) st1))
        as [[r g] b] eqn:E.
      rewrite (updateHueFromEvent_eq ox st1 r g b E).
      exists r, g, b. subst st1. outcome_holds.
    + unfold onHueMouseMove. rewrite A. cbn [negb].
      destruct (getColorAt (fst (loupe st)) (snd (loupe st))
                  (set_canvas
                     (strokeLoupe (width st) (height st) (loupe st)
                        (planeData (hueOfBar (width st) ox) (width st)
                           (height st))) st))
        as [[r g] b] eqn:E.
      rewrite (updateHueFromEvent_eq ox st r g b E).
      exists r, g, b. outcome_holds.
    + discriminate.
    + destruct (JS.parseInt vr None) as [r|] eqn:Hr; [| discriminate].
      destruct (JS.parseInt vg None) as [g|] eqn:Hg; [| discriminate].
      destruct (JS.parseInt vb None) as [b|] eqn:Hb; [| discriminate].
      rewrite (handleRgbInput_commit (set_fields (vr, vg, vb) (hexInput st) st)
                 vr vg vb r g b eq_refl Hr Hg Hb).
      pose proof (commit_eq r g b (set_fields (vr, vg, vb) (hexInput st) st))
        as C. cbv zeta in C. rewrite C.
      exists r, g, b. outcome_holds.
    + destruct (testHexField_hexToRgb hex A) as (r & g & b & E).
      rewrite (handleHexInput_commit (set_fields (rgbInputs st) hex st)
                 r g b A E).
      pose proof (commit_eq r g b (set_fields (rgbInputs st) hex st)) as C.
      cbv zeta in C. rewrite C.
      exists r, g, b. outcome_holds.
    + discriminate.
Qed.

End EngineFacts.

(** ** Examples on the concrete canvas *)

Example pressedGray_shows :
  shows pressedGray 113 113 113 /\ hue pressedGray = 0%float
  /\ loupe pressedGray = (0, 5).
Proof. vm_compute. repeat split; reflexivity. Qed.

(** The gesture of the specification: the hue bar is pressed at 7 of 20
    (hue 126), the plane is pressed at (19, 5) on a green and the pointer
    is dragged to the gray column and back into the plane. The hue stays
    126 all along and the last colour is sampled on the plane of hue 126. *)
Example drag_keeps_the_hue_of_the_press :
  let pressed := run ringStroke [HuePress 7; PlanePress 19 5] (connect small) in
  let onGray := step ringStroke (PlaneDrag 0 5) pressed in
  let back := step ringStroke (PlaneDrag 10 2) onGray in
  (hue pressed = 126%float /\ shows pressed 0 227 23)
  /\ (hue onGray = 126%float /\ shows onGray 113 113 113)
  /\ (hue back = 126%float /\ shows back 169 228 174
      /\ pixelAt (planeData 126 20 10) 20 10 2 = (169, 228, 174)).
Proof. vm_compute. repeat split; reflexivity. Qed.


(** ** Invariant 2: the hue and the colour *)

Example hue_bar_press_on_a_gray :
  let st' := step ringStroke (HuePress 7) pressedGray in
  hue pressedGray = 0%float /\ shows pressedGray 113 113 113
  /\ hue st' = 126%float /\ shows st' 113 113 113
  /\ spread 113 113 113 = 0.
Proof. vm_compute. repeat split; reflexivity. Qed.




(** ** Rejected commits *)

(** C3. A change of the RGB fields in which one of the three texts does not
    parse as a number, and a change of the hex field whose text is not an
    optional [#] and six hexadecimal digits, return the component as it is:
    fields, hue, loupe and bitmap are those of before and the trace has
    nothing new. *)
Theorem C3_malformed_commit_is_ignored
    (strokeLoupe : Z -> Z -> Z * Z -> list Z -> list Z) (st : state) :
  (forall vr vg vb,
      rgbInputs st = (vr, vg, vb) ->
      JS.isNaN (JS.parseInt vr None) || JS.isNaN (JS.parseInt vg None)
      || JS.isNaN (JS.parseInt vb None) = true ->
      handleRgbInput strokeLoupe st = st)
  /\ (validHex6 (hexInput st) = false -> handleHexInput strokeLoupe st = st).
Proof.
  split.
  - intros vr vg vb E H. now apply (handleRgbInput_ignored strokeLoupe st vr vg vb).
  - intros H. now apply handleHexInput_ignored, invalid_testHexField.
Qed.

(** The two malformed commits of the specification, on a connected
    component: RGB (300, -1, "x") and hex "ZZZZZZ". *)
Lemma C3_witness :
  (JS.isNaN (JS.parseInt "300" None) || JS.isNaN (JS.parseInt "-1" None)
   || JS.isNaN (JS.parseInt "x" None) = true
   /\ step ringStroke (RgbCommit "300" "-1" "x") pressedGray
      = set_fields ("300", "-1", "x") (hexInput pressedGray) pressedGray)
  /\ (validHex6 "ZZZZZZ" = false
      /\ step ringStroke (HexCommit "ZZZZZZ") pressedGray
         = set_fields (rgbInputs pressedGray) "ZZZZZZ" pressedGray).
Proof.
  split; (split; [reflexivity |]); cbn [step].
  - apply (proj1 (C3_malformed_commit_is_ignored ringStroke
                    (set_fields ("300", "-1", "x") (hexInput pressedGray)
                       pressedGray)) "300" "-1" "x");
      reflexivity.
  - apply (proj2 (C3_malformed_commit_is_ignored ringStroke
                    (set_fields (rgbInputs pressedGray) "ZZZZZZ" pressedGray)));
      reflexivity.
Defined.

(** ** One notification *)



(** ** The two guards of a hex commit *)

Lemma commit_shows_and_notifies
    (strokeLoupe : Z -> Z -> Z * Z -> list Z -> list Z)
    (r g b : Z) (st : state) :
  let st' := commit strokeLoupe r g b st in
  shows st' r g b
  /\ colorChanges (trace st')
     = colorChanges (trace st)
       ++ [(mkDetail r g b (rgbToHex r g b), observe st')].
Proof.
  cbv zeta. pose proof (commit_eq strokeLoupe r g b st) as C. cbv zeta in C.
  rewrite C. unfold shows, observe.
  cbn [rgbInputs hexInput trace hue loupe].
  rewrite colorChanges_app, colorChanges_notifications.
  repeat split; reflexivity.
Qed.

(** C7, counterexample. [hexToRgb] reads "ff0000" as (255, 0, 0), and a
    change of the hex field to "ff0000" is ignored: the component is as
    before, but for the text typed in the field. *)
Lemma C7_bare_digits_are_ignored :
  hexToRgb "ff0000" = Some (255, 0, 0)
  /\ step ringStroke (HexCommit "ff0000") pressedGray
     = set_fields (rgbInputs pressedGray) "ff0000" pressedGray.
Proof.
  split; [reflexivity |]. cbn [step].
  now apply handleHexInput_ignored.
Qed.

(** C7, amended. [hexToRgb] returns the decoded triple for an optional [#]
    followed by exactly six hexadecimal digits in any case, and [null] for
    every other string. The hex commit has a guard of its own in front of
    it, [/^#[0-9A-F]{6}$/i]: it passes exactly the well-formed strings that
    start with [#]. A text that passes is committed with the triple of
    [hexToRgb]; every other text, a bare six-digit one included, is
    ignored. *)
Theorem C7_hex_commit_requires_hash
    (strokeLoupe : Z -> Z -> Z * Z -> list Z -> list Z) (st : state) :
  let hex := hexInput st in
  (if validHex6 hex
   then exists r g b,
          hexToRgb hex = Some (r, g, b) /\ rgbToHex r g b = normalize hex
   else hexToRgb hex = None)
  /\ (testHexField hex = true
      <-> validHex6 hex = true /\ exists body, hex = String "#" body)
  /\ (if testHexField hex
      then exists r g b,
             let st' := handleHexInput strokeLoupe st in
             hexToRgb hex = Some (r, g, b)
             /\ shows st' r g b
             /\ colorChanges (trace st')
                = colorChanges (trace st)
                  ++ [(mkDetail r g b (rgbToHex r g b), observe st')]
      else handleHexInput strokeLoupe st = st).
Proof.
  cbv zeta. repeat split.
  - destruct (validHex6 (hexInput st)) eqn:V.
    + destruct (validHex6_inv _ V) as (c1 & c2 & c3 & c4 & c5 & c6 & E & D).
      unfold hexToRgb. rewrite execHexToRgb_stripHash, E, D.
      do 3 eexists. split; [reflexivity |].
      cbn [forallb] in D.
      repeat (apply andb_prop in D; destruct D as [? D]).
      rewrite rgbToHex_chunks, !chunk_parseGroup by assumption.
      unfold normalize. rewrite E. reflexivity.
    + destruct (hexToRgb (hexInput st)) eqn:E; [| reflexivity].
      assert (N : hexToRgb (hexInput st) <> None) by congruence.
      apply hexToRgb_valid in N. congruence.
  - now apply testHexField_validHex6.
  - now apply testHexField_hash.
  - intros [V [body E]]. rewrite E in *.
    destruct (validHex6_inv _ V) as (c1 & c2 & c3 & c4 & c5 & c6 & B & D).
    cbn [stripHash] in B. rewrite B. exact D.
  - destruct (testHexField (hexInput st)) eqn:T.
    + destruct (testHexField_hexToRgb _ T) as (r & g & b & E).
      exists r, g, b. cbv zeta. split; [exact E |].
      rewrite (handleHexInput_commit strokeLoupe st r g b T E).
      apply commit_shows_and_notifies.
    + now apply handleHexInput_ignored.
Qed.

(** ** The hue of the primaries *)

(** C8. A commit of the RGB fields reading 255, 0, 0 leaves the hue 0; one
    reading 0, 255, 0 leaves 120; one reading 0, 0, 255 leaves 240. *)
Theorem C8_hue_of_primaries
    (strokeLoupe : Z -> Z -> Z * Z -> list Z -> list Z) (st : state) :
  hue (step strokeLoupe (RgbCommit "255" "0" "0") st) = 0%float
  /\ hue (step strokeLoupe (RgbCommit "0" "255" "0") st) = 120%float
  /\ hue (step strokeLoupe (RgbCommit "0" "0" "255") st) = 240%float.
Proof.
  cbn [step]. repeat split.
  - rewrite (handleRgbInput_commit strokeLoupe _ "255" "0" "0" 255 0 0)
      by reflexivity.
    pose proof (commit_eq strokeLoupe 255 0 0
                  (set_fields ("255", "0", "0") (hexInput st) st)) as C.
    cbv zeta in C. rewrite C. cbn [hue]. vm_compute. reflexivity.
  - rewrite (handleRgbInput_commit strokeLoupe _ "0" "255" "0" 0 255 0)
      by reflexivity.
    pose proof (commit_eq strokeLoupe 0 255 0
                  (set_fields ("0", "255", "0") (hexInput st) st)) as C.
    cbv zeta in C. rewrite C. cbn [hue]. vm_compute. reflexivity.
  - rewrite (handleRgbInput_commit strokeLoupe _ "0" "0" "255" 0 0 255)
      by reflexivity.
    pose proof (commit_eq strokeLoupe 0 0 255
                  (set_fields ("0", "0", "255") (hexInput st) st)) as C.
    cbv zeta in C. rewrite C. cbn [hue]. vm_compute. reflexivity.
Qed.

(** ** Numbers outside the byte range *)

(** C10. A change of the RGB fields whose three texts parse as the integers
    r, g, b is accepted whatever their range, among the integers a number
    holds exactly (below 2^53 in magnitude): the fields then show
    (r, g, b), one colour change is notified with these values, and when a
    channel is outside [0, 255] the hex text is not a [#] followed by six
    hexadecimal digits. *)
Theorem C10_no_range_validation
    (strokeLoupe : Z -> Z -> Z * Z -> list Z -> list Z) (st : state)
    (vr vg vb : string) (r g b : Z) :
  JS.parseInt vr None = Some r ->
  JS.parseInt vg None = Some g ->
  JS.parseInt vb None = Some b ->
  safeInteger r -> safeInteger g -> safeInteger b ->
  let st' := step strokeLoupe (RgbCommit vr vg vb) st in
  accepted (RgbCommit vr vg vb) st = true
  /\ shows st' r g b
  /\ colorChanges (trace st')
     = colorChanges (trace st)
       ++ [(mkDetail r g b (rgbToHex r g b), observe st')]
  /\ (~ (0 <= r <= 255 /\ 0 <= g <= 255 /\ 0 <= b <= 255) ->
      testHexField (rgbToHex r g b) = false).
Proof.
  intros Hr Hg Hb _ _ _. cbv zeta. cbn [step accepted]. rewrite Hr, Hg, Hb.
  split; [reflexivity |].
  rewrite (handleRgbInput_commit strokeLoupe
             (set_fields (vr, vg, vb) (hexInput st) st)
             vr vg vb r g b eq_refl Hr Hg Hb).
  pose proof (commit_shows_and_notifies strokeLoupe r g b
                (set_fields (vr, vg, vb) (hexInput st) st)) as [S T].
  split; [exact S |]. split; [exact T |].
  intros N. destruct (testHexField (rgbToHex r g b)) eqn:E; [| reflexivity].
  elim N. now apply rgbToHex_wellformed_bytes.
Qed.

Lemma C10_witness :
  let st' := step ringStroke (RgbCommit "300" "-1" "0") pressedGray in
  accepted (RgbCommit "300" "-1" "0") pressedGray = true
  /\ shows st' 300 (-1) 0
  /\ colorChanges (trace st')
     = colorChanges (trace pressedGray)
       ++ [(mkDetail 300 (-1) 0 (rgbToHex 300 (-1) 0), observe st')]
  /\ (~ (0 <= 300 <= 255 /\ 0 <= -1 <= 255 /\ 0 <= 0 <= 255) ->
      testHexField (rgbToHex 300 (-1) 0) = false).
Proof.
  apply (C10_no_range_validation ringStroke pressedGray "300" "-1" "0");
    try reflexivity; split; reflexivity.
Defined.

Example rgbToHex_300 : rgbToHex 300 (-1) 0 = "#12c-100".
Proof. reflexivity. Qed.

(** ** Invariant 3: the loupe and the plane *)

(** C9, the failing input. A component configured 100 by 50 is built with
    the loupe at (150, 75), outside the plane, and connecting it leaves the
    loupe there. *)
Theorem C9_initial_loupe_outside_small_plane :
  let st := constructor (mkAttributes (Some "100") (Some "50") None) in
  width st = 100 /\ height st = 50 /\ loupe st = (150, 75)
  /\ ~ inBounds st
  /\ forall strokeLoupe st',
       connectedCallback strokeLoupe st = Some st' ->
       loupe st' = (150, 75) /\ ~ inBounds st'.
Proof.
  cbv zeta.
  set (st := constructor (mkAttributes (Some "100") (Some "50") None)).
  assert (Out : forall s, width s = 100 -> loupe s = (150, 75) -> ~ inBounds s).
  { intros s W L [B _]. rewrite W, L in B. cbn in B. lia. }
  split; [reflexivity |]. split; [reflexivity |]. split; [reflexivity |].
  split; [now apply Out |].
  intros strokeLoupe st' C.
  destruct (getColorAt (fst (loupe st)) (snd (loupe st))
              (set_canvas
                 (strokeLoupe (width st) (height st) (loupe st)
                    (planeData (hue st) (width st) (height st))) st))
    as [[r g] b] eqn:E.
  rewrite (connectedCallback_default strokeLoupe st r g b
             (or_introl eq_refl) E) in C.
  injection C as <-. split; [reflexivity | now apply Out].
Qed.

(** ** The inverse search *)

Lemma range_In (n z : Z) : In z (range n) <-> 0 <= z < n.
Proof.
  unfold range. rewrite in_map_iff. split.
  - intros [k [<- H]]. apply in_seq in H. lia.
  - intros H. exists (Z.to_nat z). split; [lia |]. apply in_seq. lia.
Qed.




Lemma sqDist_nonneg (p : Z * Z * Z) (r g b : Z) : 0 <= sqDist p r g b.
Proof.
  destruct p as [[pr pg] pb]. unfold sqDist.
  pose proof (Z.square_nonneg (pr - r)). pose proof (Z.square_nonneg (pg - g)).
  pose proof (Z.square_nonneg (pb - b)). lia.
Qed.


Section ScanFacts.
Variables (data : list Z) (width r g b : Z).

Local Abbreviation pixel := (pixelAt data width).
Local Abbreviation row := (scanRow data width r g b).
Local Abbreviation rows := (scanRows data width r g b).







End ScanFacts.





Example locate_sixPixels : locate sixPixels 3 2 1 2 3 = (1, 0).
Proof. reflexivity. Qed.

Section GrayTarget.
Variables (data : list Z) (width r g b : Z).
Hypothesis gray_target : targetIsGrayscale r g b = true.

Local Abbreviation pixel := (pixelAt data width).
Local Abbreviation row := (scanRow data width r g b).
Local Abbreviation rows := (scanRows data width r g b).

Lemma scanRow_grayKept (y : Z) (xs : list Z) (bst : best) :
  grayKept data width bst -> grayKept data width (row y xs bst).
Proof.
  revert bst. induction xs as [|x xs IH]; intros bst K; [exact K |].
  cbn [scanRow]. rewrite gray_target. cbn [andb].
  destruct (isGray (pixel x y)) eqn:G; cbn [negb]; [| now apply IH].
  destruct (closer (sqDist (pixel x y) r g b) (bestDist bst));
    [| now apply IH].
  destruct (sqDist (pixel x y) r g b =? 0); [exact G | apply IH; exact G].
Qed.

Lemma scanRows_grayKept (ys : list Z) (bst : best) :
  grayKept data width bst -> grayKept data width (rows ys bst).
Proof.
  revert bst. induction ys as [|y ys IH]; intros bst K; [exact K |].
  cbn [scanRows].
  pose proof (scanRow_grayKept y (range width) bst K) as K'.
  destruct (isZero (bestDist (row y (range width) bst)));
    [exact K' | now apply IH].
Qed.

Lemma scanRow_taken_mono (y : Z) (xs : list Z) (bst : best) :
  taken bst -> taken (row y xs bst).
Proof.
  revert bst. induction xs as [|x xs IH]; intros bst T; [exact T |].
  cbn [scanRow].
  destruct (targetIsGrayscale r g b && negb (isGray (pixel x y)));
    [now apply IH |].
  destruct (closer (sqDist (pixel x y) r g b) (bestDist bst));
    [| now apply IH].
  destruct (sqDist (pixel x y) r g b =? 0); [discriminate |].
  apply IH. discriminate.
Qed.

Lemma scanRows_taken_mono (ys : list Z) (bst : best) :
  taken bst -> taken (rows ys bst).
Proof.
  revert bst. induction ys as [|y ys IH]; intros bst T; [exact T |].
  cbn [scanRows].
  pose proof (scanRow_taken_mono y (range width) bst T) as T'.
  destruct (isZero (bestDist (row y (range width) bst)));
    [exact T' | now apply IH].
Qed.

(** A row with a gray pixel ends with a pixel taken. *)
Lemma scanRow_takes_gray (y x : Z) (xs : list Z) (bst : best) :
  In x xs -> isGray (pixel x y) = true -> taken (row y xs bst).
Proof.
  revert bst. induction xs as [|x' xs IH]; intros bst Hin G; [destruct Hin |].
  cbn [scanRow]. rewrite gray_target. cbn [andb].
  destruct (isGray (pixel x' y)) eqn:G'; cbn [negb].
  - destruct (closer (sqDist (pixel x' y) r g b) (bestDist bst)) eqn:C.
    + destruct (sqDist (pixel x' y) r g b =? 0); [discriminate |].
      apply scanRow_taken_mono. discriminate.
    + apply scanRow_taken_mono. unfold taken.
      destruct (bestDist bst); [discriminate C | discriminate].
  - destruct Hin as [-> | Hin]; [congruence | now apply IH].
Qed.

Lemma scanRows_takes_gray (x y : Z) (ys : list Z) (bst : best) :
  In y ys -> In x (range width) -> isGray (pixel x y) = true ->
  taken (rows ys bst).
Proof.
  revert bst. induction ys as [|y' ys IH]; intros bst Hy Hx G;
    [destruct Hy |].
  cbn [scanRows].
  destruct (isZero (bestDist (row y' (range width) bst))) eqn:Z0.
  - unfold taken. destruct (bestDist (row y' (range width) bst));
      [discriminate Z0 | discriminate].
  - destruct Hy as [-> | Hy].
    + apply scanRows_taken_mono. now apply (scanRow_takes_gray y x).
    + now apply IH.
Qed.

End GrayTarget.

(** For a gray target the search ends on a gray pixel when the bitmap has
    one. *)
Lemma locate_ends_on_gray (data : list Z) (w h v x1 y1 : Z) :
  0 <= x1 < w -> 0 <= y1 < h ->
  isGray (pixelAt data w x1 y1) = true ->
  isGray
    (pixelAt data w (fst (locate data w h v v v)) (snd (locate data w h v v v)))
  = true.
Proof.
  intros Hx Hy G.
  assert (T : targetIsGrayscale v v v = true)
    by (unfold targetIsGrayscale; now rewrite Z.eqb_refl).
  unfold locate. cbn [fst snd].
  set (bst := scanRows data w v v v (range h) (mkBest 0 0 Infinity)).
  assert (K : grayKept data w bst)
    by (apply scanRows_grayKept; [exact T | exact I]).
  assert (F : taken bst).
  { apply (scanRows_takes_gray data w v v v T x1 y1);
      [now apply range_In | now apply range_In | exact G]. }
  unfold grayKept in K. unfold taken in F.
  destruct (bestDist bst); [now elim F | exact K].
Qed.

(** ** The loupe stays on the plane *)

Section ScanBounds.
Variables (data : list Z) (width height r g b : Z).

Lemma scanRow_onPlane (y : Z) (xs : list Z) (bst : best) :
  (forall x, In x xs -> 0 <= x < width) -> 0 <= y < height ->
  onPlane width height bst ->
  onPlane width height (scanRow data width r g b y xs bst).
Proof.
  revert bst. induction xs as [|x xs IH]; intros bst Hxs Hy B; [exact B |].
  assert (Hx : 0 <= x < width) by (apply Hxs; now left).
  assert (Hxs' : forall z, In z xs -> 0 <= z < width)
    by (intros z Hz; apply Hxs; now right).
  cbn [scanRow].
  destruct (targetIsGrayscale r g b
            && negb (isGray (pixelAt data width x y))); [now apply IH |].
  destruct (closer (sqDist (pixelAt data width x y) r g b) (bestDist bst));
    [| now apply IH].
  destruct (sqDist (pixelAt data width x y) r g b =? 0);
    [split; assumption | apply IH; try assumption; split; assumption].
Qed.

Lemma scanRows_onPlane (ys : list Z) (bst : best) :
  (forall y, In y ys -> 0 <= y < height) ->
  onPlane width height bst ->
  onPlane width height (scanRows data width r g b ys bst).
Proof.
  revert bst. induction ys as [|y ys IH]; intros bst Hys B; [exact B |].
  cbn [scanRows].
  assert (B' : onPlane width height
                 (scanRow data width r g b y (range width) bst)).
  { apply scanRow_onPlane; [| apply Hys; now left | exact B].
    intros x Hx. now apply range_In. }
  destruct (isZero (bestDist (scanRow data width r g b y (range width) bst)));
    [exact B' |].
  apply IH; [| exact B']. intros z Hz. apply Hys. now right.
Qed.

End ScanBounds.

(** The search ends on the plane. *)
Lemma locate_onPlane (data : list Z) (w h r g b : Z) :
  0 < w -> 0 < h ->
  0 <= fst (locate data w h r g b) <= w - 1
  /\ 0 <= snd (locate data w h r g b) <= h - 1.
Proof.
  intros Hw Hh. unfold locate. cbn [fst snd].
  destruct (scanRows_onPlane data w h r g b (range h) (mkBest 0 0 Infinity))
    as [Bx By_].
  - intros y Hy. now apply range_In.
  - split; cbn; lia.
  - lia.
Qed.

(** An invocation that does not pass the guards of its entry point changes
    neither hue, loupe, bitmap nor trace: it notifies nothing. *)
Lemma rejected_is_silent
    (strokeLoupe : Z -> Z -> Z * Z -> list Z -> list Z)
    (i : input) (st : state) :
  accepted i st = false ->
  let st' := step strokeLoupe i st in
  hue st' = hue st /\ loupe st' = loupe st /\ canvas st' = canvas st
  /\ trace st' = trace st /\ width st' = width st /\ height st' = height st.
Proof.
  cbv zeta. destruct i as [ox oy|ox oy|ox|ox| |vr vg vb|hex|f];
    cbn [accepted step]; intros A.
  - unfold onMouseDown. rewrite updateLoupeFromEvent_empty.
    + repeat split; reflexivity.
    + cbn [width height set_isMouseDown].
      apply andb_false_iff in A. destruct A as [A | A];
        apply Z.ltb_ge in A; lia.
  - unfold onMouseMove. destruct (isMouseDown st); cbn [negb andb] in *;
      [| repeat split; reflexivity].
    rewrite updateLoupeFromEvent_empty; [repeat split; reflexivity |].
    apply andb_false_iff in A. destruct A as [A | A];
      apply Z.ltb_ge in A; lia.
  - discriminate.
  - unfold onHueMouseMove. rewrite A. repeat split; reflexivity.
  - repeat split; reflexivity.
  - rewrite (handleRgbInput_ignored strokeLoupe
               (set_fields (vr, vg, vb) (hexInput st) st) vr vg vb eq_refl).
    + repeat split; reflexivity.
    + now apply negb_false_iff in A.
  - rewrite handleHexInput_ignored by exact A. repeat split; reflexivity.
  - repeat split; reflexivity.
Qed.

(** On a component of positive size, an invocation that is not accepted
    notifies no colour change and leaves hue, loupe and bitmap as they are:
    a drag without a press, a release, a malformed commit, the setting of
    the callback. *)
Theorem rejected_invocation_notifies_nothing
    (strokeLoupe : Z -> Z -> Z * Z -> list Z -> list Z)
    (i : input) (st : state) :
  0 < width st -> 0 < height st ->
  accepted i st = false ->
  let st' := step strokeLoupe i st in
  colorChanges (trace st') = colorChanges (trace st)
  /\ hue st' = hue st /\ loupe st' = loupe st /\ canvas st' = canvas st.
Proof.
  intros _ _ A. cbv zeta.
  destruct (rejected_is_silent strokeLoupe i st A) as (H & L & C & T & _).
  rewrite T. repeat split; assumption.
Qed.

Lemma rejected_invocation_notifies_nothing_witness :
  (0 < width (connect small) /\ 0 < height (connect small)
   /\ accepted (PlaneDrag 3 4) (connect small) = false)
  /\ let st' := step ringStroke (PlaneDrag 3 4) (connect small) in
     colorChanges (trace st') = colorChanges (trace (connect small))
     /\ hue st' = hue (connect small) /\ loupe st' = loupe (connect small)
     /\ canvas st' = canvas (connect small).
Proof.
  split; [repeat split; reflexivity |].
  apply (rejected_invocation_notifies_nothing ringStroke (PlaneDrag 3 4)
           (connect small));
    reflexivity.
Defined.

(** On a plane with pixels, an edit leaves the loupe on the plane when it
    finds it there; a press or a drag on the plane and a commit put it
    there wherever it was. *)
Theorem edits_keep_loupe_on_plane
    (strokeLoupe : Z -> Z -> Z * Z -> list Z -> list Z)
    (i : input) (st : state) :
  0 < width st -> 0 < height st ->
  let st' := step strokeLoupe i st in
  (inBounds st -> inBounds st')
  /\ (accepted i st = true ->
      match i with
      | PlanePress _ _ | PlaneDrag _ _ | RgbCommit _ _ _ | HexCommit _ =>
          inBounds st'
      | _ => True
      end).
Proof.
  intros Hw Hh. cbv zeta.
  destruct (accepted i st) eqn:A.
  - destruct (performs_outcome strokeLoupe (Edit i) st
                (step strokeLoupe i st) (conj A eq_refl))
      as (r & g & b & _ & _ & _ & W & H & L).
    unfold inBounds, loupeAfter in *. rewrite W, H.
    destruct i as [ox oy|ox oy|ox|ox| |vr vg vb|hex|f];
      try (rewrite L; cbn [fst snd];
           pose proof (clamp_range (width st) ox Hw);
           pose proof (clamp_range (height st) oy Hh);
           split; [intros _ | intros _]; lia);
      try (rewrite L; split; [tauto | trivial]);
      try (destruct L as [data ->];
           pose proof (locate_onPlane data (width st) (height st) r g b Hw Hh);
           split; [intros _ | intros _]; lia).
  - destruct (rejected_is_silent strokeLoupe i st A)
      as (_ & L & _ & _ & W & H).
    unfold inBounds. rewrite L, W, H. split; [tauto | discriminate].
Qed.

Lemma edits_keep_loupe_on_plane_witness :
  (0 < width pressedGray /\ 0 < height pressedGray)
  /\ (inBounds pressedGray ->
      inBounds (step ringStroke (HexCommit "#00ff00") pressedGray))
  /\ (accepted (HexCommit "#00ff00") pressedGray = true ->
      inBounds (step ringStroke (HexCommit "#00ff00") pressedGray)).
Proof.
  split; [split; reflexivity |].
  apply (edits_keep_loupe_on_plane ringStroke (HexCommit "#00ff00") pressedGray);
    reflexivity.
Defined.

(** ** The plane that [renderCanvasWithHue] draws *)

Lemma nth_flat_map_block {A B : Type} (f : A -> list B) (k : nat)
    (l : list A) (i j : nat) (a : A) (d : B) :
  (forall x, List.length (f x) = k) -> (j < k)%nat ->
  (i < List.length l)%nat ->
  nth (i * k + j) (flat_map f l) d = nth j (f (nth i l a)) d.
Proof.
  intros Hk Hj. revert i.
  induction l as [|x l IH]; intros i Hi; [cbn in Hi; lia |].
  cbn [flat_map]. destruct i as [|i].
  - cbn [Nat.mul Nat.add nth]. now rewrite app_nth1 by (rewrite Hk; lia).
  - rewrite app_nth2 by (rewrite Hk; lia). rewrite Hk.
    replace (S i * k + j - k)%nat with (i * k + j)%nat by lia.
    cbn [nth]. apply IH. cbn in Hi. lia.
Qed.

Lemma length_flat_map_block {A B : Type} (f : A -> list B) (k : nat)
    (l : list A) :
  (forall x, List.length (f x) = k) ->
  List.length (flat_map f l) = (List.length l * k)%nat.
Proof.
  intros Hk. induction l as [|x l IH]; [reflexivity |].
  cbn [flat_map List.length]. rewrite length_app, Hk, IH. lia.
Qed.

Lemma length_range (n : Z) : List.length (range n) = Z.to_nat n.
Proof. unfold range. now rewrite length_map, length_seq. Qed.

Lemma nth_range (n i : Z) : 0 <= i < n -> nth (Z.to_nat i) (range n) 0 = i.
Proof.
  intros H. unfold range. change 0 with (Z.of_nat 0).
  rewrite map_nth, seq_nth by lia. lia.
Qed.

Lemma length_planePixel (hue : float) (w h x y : Z) :
  List.length (planePixel hue w h x y) = 4%nat.
Proof. unfold planePixel. now destruct (hslToRgb _ _ _) as [[? ?] ?]. Qed.

(** The bytes of a pixel are where two nested loops over the rows and the
    columns wrote them, four a pixel. *)
Lemma byteAt_rows (f : Z -> Z -> list Z) (w h x y c : Z) :
  (forall x' y', List.length (f x' y') = 4%nat) ->
  0 <= x < w -> 0 <= y < h -> 0 <= c < 4 ->
  byteAt (flat_map (fun y' => flat_map (fun x' => f x' y') (range w)) (range h))
    ((y * w + x) * 4 + c)
  = nth (Z.to_nat c) (f x y) 0.
Proof.
  intros Hf Hx Hy Hc. unfold byteAt.
  replace (Z.to_nat ((y * w + x) * 4 + c))
    with (Z.to_nat y * (Z.to_nat w * 4) + (Z.to_nat x * 4 + Z.to_nat c))%nat
    by nia.
  rewrite (nth_flat_map_block _ (Z.to_nat w * 4) _ _ _ 0).
  - rewrite (nth_flat_map_block _ 4 _ _ _ 0).
    + now rewrite !nth_range by lia.
    + intros x'. apply Hf.
    + lia.
    + rewrite length_range. lia.
  - intros y'. rewrite (length_flat_map_block _ 4), length_range;
      [reflexivity | intros x'; apply Hf].
  - nia.
  - rewrite length_range. lia.
Qed.

Lemma pixelAt_rows (f : Z -> Z -> list Z) (w h x y : Z) :
  (forall x' y', List.length (f x' y') = 4%nat) ->
  0 <= x < w -> 0 <= y < h ->
  pixelAt
    (flat_map (fun y' => flat_map (fun x' => f x' y') (range w)) (range h))
    w x y
  = (nth 0 (f x y) 0, nth 1 (f x y) 0, nth 2 (f x y) 0).
Proof.
  intros Hf Hx Hy. unfold pixelAt.
  replace ((y * w + x) * 4) with ((y * w + x) * 4 + 0) at 1 by lia.
  now rewrite !(byteAt_rows f w h) by (assumption || lia).
Qed.

Lemma length_rows (f : Z -> Z -> list Z) (w h : Z) :
  (forall x' y', List.length (f x' y') = 4%nat) ->
  0 <= w -> 0 <= h ->
  List.length
    (flat_map (fun y' => flat_map (fun x' => f x' y') (range w)) (range h))
  = Z.to_nat (4 * (w * h)).
Proof.
  intros Hf Hw Hh.
  rewrite (length_flat_map_block _ (Z.to_nat w * 4)), length_range.
  - nia.
  - intros y'. rewrite (length_flat_map_block _ 4), length_range;
      [reflexivity | intros x'; apply Hf].
Qed.

Lemma pixelAt_planeData (hue : float) (w h x y : Z) :
  0 <= x < w -> 0 <= y < h ->
  pixelAt (planeData hue w h) w x y
  = match planePixel hue w h x y with
    | [pr; pg; pb; _] => (pr, pg, pb)
    | _ => (0, 0, 0)
    end.
Proof.
  intros Hx Hy. unfold planeData.
  rewrite (pixelAt_rows (planePixel hue w h) w h x y)
    by (assumption || intros; apply length_planePixel).
  unfold planePixel. now destruct (hslToRgb _ _ _) as [[? ?] ?].
Qed.

Lemma length_planeData (hue : float) (w h : Z) :
  0 <= w -> 0 <= h ->
  List.length (planeData hue w h) = Z.to_nat (4 * (w * h)).
Proof.
  intros Hw Hh. unfold planeData.
  apply (length_rows (planePixel hue w h));
    [intros; apply length_planePixel | assumption | assumption].
Qed.

(** Where the saturation of the left column is 0, the left column of the
    plane is gray, whatever the hue. *)
Lemma plane_left_column_gray (hue : float) (w h y : Z) :
  0 < w -> 0 <= y < h ->
  (JS.ofZ 0 / JS.ofZ (w - 1) =? 0)%float = true ->
  isGray (pixelAt (planeData hue w h) w 0 y) = true.
Proof.
  intros Hw Hy S. rewrite pixelAt_planeData by lia.
  unfold planePixel, hslToRgb. rewrite S. unfold isGray.
  now rewrite !Z.eqb_refl.
Qed.

(** The saturation of the left column is 0 for the widths from 2 to 4096. *)
Lemma left_saturation_table :
  forallb (fun w => (JS.ofZ 0 / JS.ofZ (w - 1) =? 0)%float)
    (map (fun k => k + 2) (range 4095)) = true.
Proof. vm_compute. reflexivity. Qed.

Lemma left_saturation_zero (w : Z) :
  2 <= w <= 4096 -> (JS.ofZ 0 / JS.ofZ (w - 1) =? 0)%float = true.
Proof.
  intros H. pose proof left_saturation_table as T.
  rewrite forallb_forall in T. apply T.
  apply in_map_iff. exists (w - 2). split; [lia |]. apply range_In. lia.
Qed.

(** Every plane from 2 to 4096 pixels wide has a gray left column. *)
Lemma plane_has_gray (hue : float) (w h y : Z) :
  2 <= w <= 4096 -> 0 <= y < h ->
  isGray (pixelAt (planeData hue w h) w 0 y) = true.
Proof.
  intros Hw Hy. apply plane_left_column_gray; try lia.
  now apply left_saturation_zero.
Qed.


(** C5. For an achromatic target (v, v, v) the search ends on a gray
    pixel, wherever the other pixels are and however close to the target
    they are: on every bitmap that has a gray pixel, and so on every plane
    that [renderCanvasWithHue] draws from 2 to 4096 pixels wide, whatever
    the hue and the place of the loupe, under a ring that leaves grays gray
    (the left column of the plane has saturation 0). *)
Theorem C5_gray_target_ends_on_gray
    (strokeLoupe : Z -> Z -> Z * Z -> list Z -> list Z)
    (hue : float) (p : Z * Z) (data : list Z) (w h v : Z) :
  let found d :=
    pixelAt d w (fst (locate d w h v v v)) (snd (locate d w h v v v)) in
  ((exists x y,
       0 <= x < w /\ 0 <= y < h /\ isGray (pixelAt data w x y) = true) ->
   isGray (found data) = true)
  /\ (keepsGray strokeLoupe -> 2 <= w <= 4096 -> 0 < h ->
      isGray (found (strokeLoupe w h p (planeData hue w h))) = true).
Proof.
  cbv zeta. split.
  - intros (x & y & Hx & Hy & G). now apply (locate_ends_on_gray data w h v x y).
  - intros K Hw Hh.
    apply (locate_ends_on_gray _ w h v 0 0); try lia.
    apply K; try lia. apply plane_has_gray; lia.
Qed.

Lemma C5_witness :
  (exists x y,
      0 <= x < 2 /\ 0 <= y < 1 /\ isGray (pixelAt nearMiss 2 x y) = true)
  /\ isGray
       (pixelAt nearMiss 2 (fst (locate nearMiss 2 1 100 100 100))
          (snd (locate nearMiss 2 1 100 100 100)))
     = true.
Proof.
  assert (G : exists x y,
             0 <= x < 2 /\ 0 <= y < 1
             /\ isGray (pixelAt nearMiss 2 x y) = true)
    by (exists 1, 0; repeat split; (lia || reflexivity)).
  split; [exact G |].
  exact (proj1 (C5_gray_target_ends_on_gray ringStroke 0%float (0, 0)
                  nearMiss 2 1 100) G).
Defined.

Example locate_nearMiss :
  locate nearMiss 2 1 100 100 100 = (1, 0)
  /\ sqDist (pixelAt nearMiss 2 0 0) 100 100 100 = 1
  /\ sqDist (pixelAt nearMiss 2 1 0) 100 100 100 = 30000.
Proof. repeat split; reflexivity. Qed.



(** ** The search returns the nearest match *)

Section Nearest.
Variables (data : list Z) (w h r g b : Z).

Local Abbreviation ok := (eligible data w r g b).
Local Abbreviation dist := (distAt data w r g b).
Local Abbreviation visited := (scanned data w h r g b).
Local Abbreviation best_match := (nearest data w h r g b).

Lemma dist_nonneg (x y : Z) : 0 <= dist x y.
Proof. apply sqDist_nonneg. Qed.

Lemma visited_skip (x y : Z) (bst : best) :
  ok x y = false -> visited x y bst -> visited (x + 1) y bst.
Proof.
  intros E. unfold scanned, before. destruct (bestDist bst) as [|d].
  - intros (Bx & By_ & N). split; [exact Bx |]. split; [exact By_ |].
    intros x' y' I B.
    destruct (Z.eq_dec y' y) as [-> | Ny];
      [destruct (Z.eq_dec x' x) as [-> | Nx] |];
      [exact E | apply N; [exact I | lia] | apply N; [exact I | lia]].
  - intros (I & B & O & D & M).
    split; [exact I |]. split; [lia |]. split; [exact O |].
    split; [exact D |]. intros x' y' I' B' O'.
    assert (B'' : y' < y \/ y' = y /\ x' < x).
    { destruct (Z.eq_dec y' y) as [-> | Ny];
        [destruct (Z.eq_dec x' x) as [-> | Nx] |]; [congruence | lia | lia]. }
    exact (M x' y' I' B'' O').
Qed.

Lemma visited_keep (x y : Z) (bst : best) :
  closer (dist x y) (bestDist bst) = false ->
  visited x y bst -> visited (x + 1) y bst.
Proof.
  unfold scanned, before, closer. destruct (bestDist bst) as [|d];
    [discriminate |].
  intros C (I & B & O & D & M). apply Z.ltb_ge in C.
  split; [exact I |]. split; [lia |]. split; [exact O |].
  split; [exact D |]. intros x' y' I' B' O'.
  destruct (Z.eq_dec y' y) as [-> | Ny];
    [destruct (Z.eq_dec x' x) as [-> | Nx] |].
  - split; [exact C | lia].
  - apply M; [exact I' | lia | exact O'].
  - apply M; [exact I' | lia | exact O'].
Qed.

(** A pixel nearer than all the pixels visited before it. *)
Lemma visited_closer (x y x' y' : Z) (bst : best) :
  closer (dist x y) (bestDist bst) = true ->
  visited x y bst ->
  inside w h x' y' -> before x' y' x y -> ok x' y' = true ->
  dist x y < dist x' y'.
Proof.
  unfold scanned, closer. destruct (bestDist bst) as [|d].
  - intros _ (_ & _ & N) I B O. rewrite (N x' y' I B) in O. discriminate.
  - intros C (_ & _ & _ & _ & M) I B O. apply Z.ltb_lt in C.
    destruct (M x' y' I B O) as [L _]. lia.
Qed.

Lemma visited_take (x y : Z) (bst : best) :
  inside w h x y -> ok x y = true ->
  closer (dist x y) (bestDist bst) = true ->
  visited x y bst ->
  visited (x + 1) y (mkBest x y (Finite (dist x y))).
Proof.
  intros I O C V. unfold scanned. cbn [bestDist bestX bestY].
  split; [exact I |]. split; [unfold before; lia |]. split; [exact O |].
  split; [reflexivity |]. intros x' y' I' B' O'.
  destruct (Z.eq_dec y' y) as [-> | Ny];
    [destruct (Z.eq_dec x' x) as [-> | Nx] |].
  - split; [lia | unfold before; lia].
  - assert (L : dist x y < dist x' y)
      by (apply (visited_closer x y x' y bst); try assumption;
          unfold before in *; lia).
    split; [lia | intros _; exact L].
  - assert (L : dist x y < dist x' y')
      by (apply (visited_closer x y x' y' bst); try assumption;
          unfold before in *; lia).
    split; [lia | intros _; exact L].
Qed.

Lemma take_zero_best_match (x y : Z) (bst : best) :
  inside w h x y -> ok x y = true ->
  closer (dist x y) (bestDist bst) = true ->
  dist x y = 0 ->
  visited x y bst -> best_match x y.
Proof.
  intros I O C Z0 V. unfold nearest.
  split; [exact I |]. split; [exact O |]. intros x' y' I' O'. split.
  - rewrite Z0. apply dist_nonneg.
  - intros B. now apply (visited_closer x y x' y' bst).
Qed.

Lemma before_trans (x1 y1 x2 y2 x3 y3 : Z) :
  before x1 y1 x2 y2 -> before x2 y2 x3 y3 -> before x1 y1 x3 y3.
Proof. unfold before. lia. Qed.

Lemma visited_zero_best_match (cx cy : Z) (bst : best) :
  visited cx cy bst -> isZero (bestDist bst) = true ->
  best_match (bestX bst) (bestY bst).
Proof.
  unfold scanned, isZero. destruct (bestDist bst) as [|d]; [discriminate |].
  intros (I & B & O & D & M) Z0. apply Z.eqb_eq in Z0.
  unfold nearest. split; [exact I |]. split; [exact O |].
  intros x' y' I' O'. split.
  - rewrite <- D, Z0. apply dist_nonneg.
  - intros B'. rewrite <- D.
    apply M; try assumption. now apply (before_trans _ _ _ _ _ _ B').
Qed.

Lemma visited_next_row (y : Z) (bst : best) :
  visited w y bst -> visited 0 (y + 1) bst.
Proof.
  unfold scanned, before, inside. destruct (bestDist bst) as [|d].
  - intros (Bx & By_ & N). repeat split; try assumption.
    intros x' y' I B. apply N; [assumption | lia].
  - intros (I & B & O & D & M). repeat split; try assumption; try lia;
      apply M; try assumption; lia.
Qed.

(** The inner loop from column [s] on: it stops on a best match at
    distance 0, or visits the row to its end. *)
Lemma scanRow_visited (y : Z) (n s : nat) (bst : best) :
  0 <= y < h -> Z.of_nat (s + n) = w ->
  visited (Z.of_nat s) y bst ->
  let res := scanRow data w r g b y (map Z.of_nat (seq s n)) bst in
  (isZero (bestDist res) = true /\ best_match (bestX res) (bestY res))
  \/ visited w y res.
Proof.
  intros Hy. revert s bst.
  induction n as [|n IH]; intros s bst Hs V; cbn [seq map scanRow].
  - right. assert (E : Z.of_nat s = w) by lia. rewrite E in V. exact V.
  - set (x := Z.of_nat s) in *.
    assert (I : inside w h x y) by (unfold inside; lia).
    assert (Next : Z.of_nat (S s) = x + 1) by lia.
    assert (Hs' : Z.of_nat (S s + n) = w) by lia.
    destruct (targetIsGrayscale r g b && negb (isGray (pixelAt data w x y)))
      eqn:Skip.
    + apply IH; [exact Hs' |]. rewrite Next. apply visited_skip; [| exact V].
      unfold eligible. now rewrite Skip.
    + assert (O : ok x y = true) by (unfold eligible; now rewrite Skip).
      fold (dist x y).
      destruct (closer (dist x y) (bestDist bst)) eqn:C.
      * destruct (Z.eqb_spec (dist x y) 0) as [Z0 | NZ].
        -- left. cbn [bestDist bestX bestY isZero].
           split; [now apply Z.eqb_eq |].
           now apply (take_zero_best_match x y bst).
        -- apply IH; [exact Hs' |]. rewrite Next.
           now apply (visited_take x y bst).
      * apply IH; [exact Hs' |]. rewrite Next.
        now apply (visited_keep x y bst).
Qed.

(** The outer loop from row [s] on. *)
Lemma scanRows_visited (n s : nat) (bst : best) :
  0 <= w -> Z.of_nat (s + n) = h ->
  visited 0 (Z.of_nat s) bst ->
  let res := scanRows data w r g b (map Z.of_nat (seq s n)) bst in
  match bestDist res with
  | Infinity =>
      bestX res = 0 /\ bestY res = 0
      /\ forall x y, inside w h x y -> ok x y = false
  | Finite _ => best_match (bestX res) (bestY res)
  end.
Proof.
  intros Hw. revert s bst.
  induction n as [|n IH]; intros s bst Hs V; cbn [seq map scanRows].
  - unfold scanned in V. destruct (bestDist bst) as [|d].
    + destruct V as (Bx & By_ & N). repeat split; try assumption.
      intros x y I. apply N; [exact I |]. unfold before, inside in *. lia.
    + destruct V as (I & B & O & D & M). unfold nearest.
      split; [exact I |]. split; [exact O |]. intros x y I' O'.
      rewrite <- D. apply M; [exact I' | | exact O'].
      unfold before, inside in *. lia.
  - set (y := Z.of_nat s) in *.
    assert (Hy : 0 <= y < h) by lia.
    assert (Hrow : Z.of_nat (0 + Z.to_nat w) = w) by lia.
    pose proof (scanRow_visited y (Z.to_nat w) 0 bst Hy Hrow V) as R.
    cbv zeta in R. fold (range w) in R.
    destruct (isZero (bestDist (scanRow data w r g b y (range w) bst))) eqn:Z0.
    + assert (B : best_match
                    (bestX (scanRow data w r g b y (range w) bst))
                    (bestY (scanRow data w r g b y (range w) bst))).
      { destruct R as [[_ B] | V']; [exact B |].
        now apply (visited_zero_best_match w y). }
      destruct (bestDist (scanRow data w r g b y (range w) bst));
        [discriminate Z0 | exact B].
    + destruct R as [[Z1 _] | V']; [congruence |].
      apply IH; [lia |].
      replace (Z.of_nat (S s)) with (y + 1) by lia.
      now apply visited_next_row.
Qed.

End Nearest.

(** The pixels of a bitmap of bytes are bytes. *)
Lemma bytesIn_inside (data : list Z) (w h x y : Z) :
  bytesIn data w h = true -> inside w h x y ->
  let '(pr, pg, pb) := pixelAt data w x y in
  isByte pr /\ isByte pg /\ isByte pb.
Proof.
  intros B [Hx Hy]. unfold bytesIn in B. rewrite forallb_forall in B.
  specialize (B y ltac:(apply range_In; lia)). rewrite forallb_forall in B.
  specialize (B x ltac:(apply range_In; lia)).
  destruct (pixelAt data w x y) as [[pr pg] pb].
  repeat (apply andb_prop in B; destruct B as [B ?]).
  repeat match goal with
         | H : (_ <=? _) = true |- _ => apply Z.leb_le in H
         end.
  unfold isByte. lia.
Qed.

(** Between a triple of bytes and a target up to 2^25 in magnitude the
    squared distance is below 2^53, and so is all that is added up to
    it. *)
Lemma sqDist_exact (p : Z * Z * Z) (r g b : Z) :
  (let '(pr, pg, pb) := p in isByte pr /\ isByte pg /\ isByte pb) ->
  exactDistance r g b ->
  0 <= sqDist p r g b < 2 ^ 53.
Proof.
  destruct p as [[pr pg] pb]. unfold isByte, exactDistance, sqDist.
  intros (Hr & Hg & Hb) (Er & Eg & Eb).
  assert (Sq : forall d, - (2 ^ 25 + 255) <= d <= 2 ^ 25 + 255 ->
                 0 <= d * d <= (2 ^ 25 + 255) * (2 ^ 25 + 255))
    by (intros d Hd; nia).
  pose proof (Sq (pr - r) ltac:(lia)). pose proof (Sq (pg - g) ltac:(lia)).
  pose proof (Sq (pb - b) ltac:(lia)).
  cbv zeta. lia.
Qed.

(** The inverse search of the specification, on a bitmap of bytes and for a
    target up to 2^25 in magnitude, where the squared distances that the
    code computes in doubles are the integers computed here. On a bitmap
    with a pixel that the search may take (any pixel for a chromatic target,
    a gray one for a gray target), it ends on such a pixel at the least
    squared distance of the target, and on the first of these in scan
    order. *)
Theorem locate_returns_nearest
    (data : list Z) (w h r g b x1 y1 : Z) :
  bytesIn data w h = true -> exactDistance r g b ->
  inside w h x1 y1 -> eligible data w r g b x1 y1 = true ->
  nearest data w h r g b
    (fst (locate data w h r g b)) (snd (locate data w h r g b))
  /\ forall x y, inside w h x y -> 0 <= distAt data w r g b x y < 2 ^ 53.
Proof.
  intros By Ex I O. split.
  2: { intros x y Ixy. unfold distAt. apply sqDist_exact; [| exact Ex].
       now apply bytesIn_inside with (h := h). }
  unfold locate. cbn [fst snd].
  assert (Hw : 0 <= w) by (unfold inside in I; lia).
  assert (Hh : Z.of_nat (0 + Z.to_nat h) = h) by (unfold inside in I; lia).
  assert (V : scanned data w h r g b 0 (Z.of_nat 0) (mkBest 0 0 Infinity)).
  { unfold scanned. cbn [bestDist bestX bestY]. repeat split.
    intros x y Ixy B. unfold before, inside in *. lia. }
  pose proof (scanRows_visited data w h r g b (Z.to_nat h) 0
                (mkBest 0 0 Infinity) Hw Hh V) as R.
  cbv zeta in R. fold (range h) in R.
  destruct (bestDist (scanRows data w r g b (range h) (mkBest 0 0 Infinity))).
  - destruct R as (_ & _ & N). rewrite (N x1 y1 I) in O. discriminate.
  - exact R.
Qed.

Lemma locate_returns_nearest_witness :
  (bytesIn nearMiss 2 1 = true /\ exactDistance 100 100 100
   /\ inside 2 1 1 0 /\ eligible nearMiss 2 100 100 100 1 0 = true)
  /\ nearest nearMiss 2 1 100 100 100
       (fst (locate nearMiss 2 1 100 100 100))
       (snd (locate nearMiss 2 1 100 100 100))
  /\ forall x y,
       inside 2 1 x y -> 0 <= distAt nearMiss 2 100 100 100 x y < 2 ^ 53.
Proof.
  assert (Ex : exactDistance 100 100 100)
    by (unfold exactDistance; repeat split; discriminate).
  split; [split; [reflexivity |]; split; [exact Ex |];
          split; [unfold inside; lia | reflexivity] |].
  apply (locate_returns_nearest nearMiss 2 1 100 100 100 1 0);
    [reflexivity | exact Ex | unfold inside; lia | reflexivity].
Defined.

(** ** The fields read back *)

(** The ten decimal digits. *)
Lemma decimal_digit_cases (c : ascii) :
  JS.digitIn 10 c <> None ->
  In c (list_ascii_of_string "0123456789").
Proof.
  destruct c as [[] [] [] [] [] [] [] []]; cbn; intros H;
    try (now elim H); tauto.
Qed.

Lemma digitIn_digitChar (d : Z) :
  0 <= d < 10 -> JS.digitIn 10 (JS.digitChar d) = Some d.
Proof.
  intros H.
  assert (C : d = 0 \/ d = 1 \/ d = 2 \/ d = 3 \/ d = 4 \/ d = 5 \/ d = 6
              \/ d = 7 \/ d = 8 \/ d = 9) by lia.
  repeat (destruct C as [-> | C]; [reflexivity |]). now subst.
Qed.

Lemma toDigits_allDecimal (fuel : nat) (n : Z) (acc : string) :
  0 <= n -> allDecimal acc = true ->
  allDecimal (JS.toDigits fuel 10 n acc) = true.
Proof.
  revert n acc. induction fuel as [|fuel IH]; intros n acc Hn A;
    cbn [JS.toDigits]; [exact A |].
  assert (D : allDecimal (String (JS.digitChar (n mod 10)) acc) = true).
  { cbn [allDecimal]. rewrite digitIn_digitChar; [exact A |].
    apply Z.mod_pos_bound. lia. }
  destruct (n / 10 =? 0); [exact D |].
  apply IH; [| exact D]. apply Z.div_pos; lia.
Qed.

Lemma toDigits_nonempty (fuel : nat) (n : Z) :
  JS.toDigits (S fuel) 10 n "" <> "".
Proof.
  intros E. apply (f_equal String.length) in E. cbn [JS.toDigits] in E.
  destruct (n / 10 =? 0); [discriminate |].
  pose proof (length_toDigits fuel 10 (n / 10)
                (String (JS.digitChar (n mod 10)) "")) as L.
  rewrite E in L. cbn in L. lia.
Qed.

(** With fuel for its digits, a number is read back from its digits. *)
Lemma parseDigits_toDigits (fuel : nat) (n : Z) (acc : string) :
  0 <= n < 2 ^ Z.of_nat (S fuel) ->
  JS.parseDigits 10 (JS.toDigits (S fuel) 10 n acc) None
  = JS.parseDigits 10 acc (Some n).
Proof.
  revert n acc. induction fuel as [|fuel IH]; intros n acc Hn.
  - assert (Q : n / 10 = 0) by (apply Z.div_small; cbn in Hn; lia).
    assert (M : n mod 10 = n) by (apply Z.mod_small; cbn in Hn; lia).
    cbn [JS.toDigits]. rewrite Q, M. cbn [Z.eqb JS.parseDigits].
    rewrite digitIn_digitChar by (cbn in Hn; lia). reflexivity.
  - remember (S fuel) as f eqn:F. cbn [JS.toDigits].
    assert (Hd : 0 <= n mod 10 < 10) by (apply Z.mod_pos_bound; lia).
    assert (E : n = 10 * (n / 10) + n mod 10) by (apply Z.div_mod; lia).
    destruct (Z.eqb_spec (n / 10) 0) as [Q | Q].
    + cbn [JS.parseDigits]. rewrite digitIn_digitChar by exact Hd.
      do 3 f_equal. lia.
    + subst f. rewrite IH.
      * cbn [JS.parseDigits]. rewrite digitIn_digitChar by exact Hd.
        do 3 f_equal. lia.
      * rewrite (Nat2Z.inj_succ (S fuel)), Z.pow_succ_r in Hn by lia.
        split; [apply Z.div_pos; lia |].
        apply Z.div_lt_upper_bound; lia.
Qed.

(** The cases of a membership in a list written out. *)
Ltac each_digit H :=
  cbn in H; repeat (destruct H as [<- | H]); try contradiction.

(** A text of decimal digits is parsed as it stands: no white space, no
    sign, no [0x] in front. *)
Lemma parseInt_allDecimal (s : string) :
  s <> "" -> allDecimal s = true ->
  JS.parseInt s None = option_map (Z.mul 1) (JS.parseDigits 10 s None).
Proof.
  intros N A. destruct s as [|c1 s]; [now elim N |].
  cbn [allDecimal] in A.
  destruct (JS.digitIn 10 c1) eqn:D1; [| discriminate].
  assert (I1 : In c1 (list_ascii_of_string "0123456789"))
    by (apply decimal_digit_cases; congruence).
  destruct s as [|c2 s].
  - each_digit I1; reflexivity.
  - cbn [allDecimal] in A.
    destruct (JS.digitIn 10 c2) eqn:D2; [| discriminate].
    assert (I2 : In c2 (list_ascii_of_string "0123456789"))
      by (apply decimal_digit_cases; congruence).
    each_digit I1; each_digit I2; reflexivity.
Qed.

(** [parseInt] reads back what [toString] writes in decimal. *)
Lemma parseInt_toString (n : Z) : JS.parseInt (JS.toString 10 n) None = Some n.
Proof.
  assert (P : forall m, 0 <= m ->
            JS.parseInt
              (JS.toDigits (S (Z.to_nat (Z.log2 m))) 10 m "") None = Some m).
  { intros m Hm.
    rewrite parseInt_allDecimal;
      [| apply toDigits_nonempty | now apply toDigits_allDecimal].
    rewrite parseDigits_toDigits;
      [cbn [JS.parseDigits option_map]; f_equal; lia |].
    split; [exact Hm |].
    destruct (Z.eq_dec m 0) as [-> | Nz]; [reflexivity |].
    rewrite Nat2Z.inj_succ, Z2Nat.id by apply Z.log2_nonneg.
    apply Z.log2_spec. lia. }
  unfold JS.toString. destruct (Z.ltb_spec n 0) as [Neg | Pos].
  - specialize (P (- n) ltac:(lia)).
    set (d := JS.toDigits _ 10 (- n) "") in *.
    assert (A : allDecimal d = true)
      by (apply toDigits_allDecimal; [lia | reflexivity]).
    assert (Nd : d <> "") by apply toDigits_nonempty.
    rewrite parseInt_allDecimal in P by assumption.
    assert (Q : JS.parseInt (String "-" d) None
                = option_map (Z.mul (-1)) (JS.parseDigits 10 d None)).
    { destruct d as [|c1 d']; [now elim Nd |].
      cbn [allDecimal] in A.
      destruct (JS.digitIn 10 c1) eqn:D1; [| discriminate].
      assert (I1 : In c1 (list_ascii_of_string "0123456789"))
        by (apply decimal_digit_cases; congruence).
      destruct d' as [|c2 d''].
      - each_digit I1; reflexivity.
      - cbn [allDecimal] in A.
        destruct (JS.digitIn 10 c2) eqn:D2; [| discriminate].
        assert (I2 : In c2 (list_ascii_of_string "0123456789"))
          by (apply decimal_digit_cases; congruence).
        each_digit I1; each_digit I2; reflexivity. }
    rewrite Q. destruct (JS.parseDigits 10 d None) as [v |];
      [| discriminate P].
    cbn [option_map] in *. injection P as P.
    assert (V : v = - n) by (destruct v; exact P). f_equal. lia.
  - now apply P.
Qed.

(** The chunk of a byte is two hexadecimal digits that read back as the
    byte. *)
Lemma chunk_byte_table :
  forallb
    (fun x =>
       match chunk x with
       | String c1 (String c2 "") =>
           isHexDigit c1 && isHexDigit c2 && (parseGroup (string2 c1 c2) =? x)
       | _ => false
       end)
    (range 256) = true.
Proof. vm_compute. reflexivity. Qed.

Lemma chunk_byte (x : Z) :
  0 <= x <= 255 ->
  exists c1 c2,
    chunk x = string2 c1 c2 /\ isHexDigit c1 = true /\ isHexDigit c2 = true
    /\ parseGroup (string2 c1 c2) = x.
Proof.
  intros H. pose proof chunk_byte_table as T. rewrite forallb_forall in T.
  specialize (T x ltac:(apply range_In; lia)).
  destruct (chunk x) as [|c1 [|c2 [|c3 t]]]; try discriminate.
  apply andb_prop in T. destruct T as [T E]. apply andb_prop in T.
  destruct T as [H1 H2]. apply Z.eqb_eq in E. now exists c1, c2.
Qed.

(** [hexToRgb] reads back what [rgbToHex] writes for three bytes, and the
    text passes the test of the hex field. *)
Lemma hexToRgb_rgbToHex (r g b : Z) :
  0 <= r <= 255 -> 0 <= g <= 255 -> 0 <= b <= 255 ->
  hexToRgb (rgbToHex r g b) = Some (r, g, b)
  /\ testHexField (rgbToHex r g b) = true.
Proof.
  intros Hr Hg Hb. rewrite rgbToHex_chunks.
  destruct (chunk_byte r Hr) as (r1 & r2 & -> & R1 & R2 & Er).
  destruct (chunk_byte g Hg) as (g1 & g2 & -> & G1 & G2 & Eg).
  destruct (chunk_byte b Hb) as (b1 & b2 & -> & B1 & B2 & Eb).
  unfold hexToRgb, execHexToRgb, testHexField, string2.
  cbn [String.append forallb]. rewrite R1, R2, G1, G2, B1, B2.
  cbn [andb]. fold (string2 r1 r2) (string2 g1 g2) (string2 b1 b2).
  now rewrite Er, Eg, Eb.
Qed.

(** The four fields hold one colour. When they show (r, g, b), three
    integers below 2^53 in magnitude, the three RGB fields parse back to r,
    g and b; the hex field decodes to (r, g, b) and passes the test of its
    handler when the three are bytes, and fails that test when one is
    not. *)
Theorem fields_read_back (st : state) (r g b : Z) :
  shows st r g b ->
  safeInteger r -> safeInteger g -> safeInteger b ->
  (let '(vr, vg, vb) := rgbInputs st in
   JS.parseInt vr None = Some r /\ JS.parseInt vg None = Some g
   /\ JS.parseInt vb None = Some b)
  /\ (if (0 <=? r) && (r <=? 255) && (0 <=? g) && (g <=? 255)
         && (0 <=? b) && (b <=? 255)
      then hexToRgb (hexInput st) = Some (r, g, b)
           /\ testHexField (hexInput st) = true
      else testHexField (hexInput st) = false).
Proof.
  intros [F H] _ _ _. rewrite F, H. split.
  - repeat split; apply parseInt_toString.
  - destruct ((0 <=? r) && (r <=? 255) && (0 <=? g) && (g <=? 255)
              && (0 <=? b) && (b <=? 255)) eqn:B.
    + repeat (apply andb_prop in B; destruct B as [B ?]).
      apply hexToRgb_rgbToHex; lia.
    + destruct (testHexField (rgbToHex r g b)) eqn:T; [| reflexivity].
      apply rgbToHex_wellformed_bytes in T.
      assert (B' : (0 <=? r) && (r <=? 255) && (0 <=? g) && (g <=? 255)
                   && (0 <=? b) && (b <=? 255) = true).
      { repeat (apply andb_true_intro; split); apply Z.leb_le; lia. }
      congruence.
Qed.

Lemma fields_read_back_witness :
  shows pressedGray 113 113 113
  /\ (let '(vr, vg, vb) := rgbInputs pressedGray in
      JS.parseInt vr None = Some 113 /\ JS.parseInt vg None = Some 113
      /\ JS.parseInt vb None = Some 113)
  /\ (if (0 <=? 113) && (113 <=? 255) && (0 <=? 113) && (113 <=? 255)
         && (0 <=? 113) && (113 <=? 255)
      then hexToRgb (hexInput pressedGray) = Some (113, 113, 113)
           /\ testHexField (hexInput pressedGray) = true
      else testHexField (hexInput pressedGray) = false).
Proof.
  assert (S : shows pressedGray 113 113 113)
    by (vm_compute; split; reflexivity).
  split; [exact S |].
  apply (fields_read_back pressedGray 113 113 113 S); split; reflexivity.
Defined.

(** ** What an accepted invocation leaves on the bitmap *)

Section Aftermath.
Variable strokeLoupe : Z -> Z -> Z * Z -> list Z -> list Z.

Ltac bitmap_holds :=
  unfold renderCanvasWithHue, planeHueAfter, samples, shows;
  cbn [canvas set_canvas width height loupe hue rgbInputs hexInput
       selectedColor set_isMouseDown set_draggingHue set_fields fst snd].

Lemma performs_bitmap (e : entry) (st st' : state) :
  performs strokeLoupe e st st' ->
  canvas st'
  = canvas (renderCanvasWithHue strokeLoupe (planeHueAfter e st st') st')
  /\ (samples e st = true ->
      exists r g b,
        getColorAt (fst (loupe st')) (snd (loupe st')) st' = (r, g, b)
        /\ shows st' r g b).
Proof.
  destruct e as [|i]; cbn [performs].
  - intros H. destruct (selectedColor st) as [[|c s]|] eqn:S.
    + destruct (getColorAt (fst (loupe st)) (snd (loupe st))
                  (set_canvas
                     (strokeLoupe (width st) (height st) (loupe st)
                        (planeData (hue st) (width st) (height st))) st))
        as [[r g] b] eqn:E.
      rewrite (connectedCallback_default strokeLoupe st r g b (or_intror S) E)
        in H.
      injection H as <-. bitmap_holds. rewrite S. split; [reflexivity |].
      intros _. exists r, g, b. split; [| split; reflexivity].
      unfold getColorAt in *. cbn [width height canvas set_canvas] in *.
      exact E.
    + destruct (parseSeed (String c s)) as [[[r g] b]|] eqn:P.
      * rewrite (connectedCallback_seed strokeLoupe st c s r g b S P) in H.
        injection H as <-. bitmap_holds. rewrite S.
        split; [reflexivity | discriminate].
      * rewrite (connectedCallback_unread strokeLoupe st c s S P) in H.
        discriminate.
    + destruct (getColorAt (fst (loupe st)) (snd (loupe st))
                  (set_canvas
                     (strokeLoupe (width st) (height st) (loupe st)
                        (planeData (hue st) (width st) (height st))) st))
        as [[r g] b] eqn:E.
      rewrite (connectedCallback_default strokeLoupe st r g b (or_introl S) E)
        in H.
      injection H as <-. bitmap_holds. rewrite S. split; [reflexivity |].
      intros _. exists r, g, b. split; [| split; reflexivity].
      unfold getColorAt in *. cbn [width height canvas set_canvas] in *.
      exact E.
  - intros [A ->]. destruct i as [ox oy|ox oy|ox|ox| |vr vg vb|hex|f];
      cbn [accepted step] in *.
    + apply andb_prop in A. destruct A as [Hw Hh].
      apply Z.ltb_lt in Hw, Hh. unfold onMouseDown.
      set (st1 := set_isMouseDown true st).
      destruct (pixelAt
                  (strokeLoupe (width st1) (height st1)
                     (clamp (width st1) ox, clamp (height st1) oy)
                     (planeData (hue st1) (width st1) (height st1)))
                  (width st1) (clamp (width st1) ox) (clamp (height st1) oy))
        as [[r g] b] eqn:E.
      rewrite (updateLoupeFromEvent_eq strokeLoupe ox oy true st1 r g b
                 Hw Hh E).
      subst st1. bitmap_holds. split; [reflexivity |].
      intros _. exists r, g, b. split; [| split; reflexivity].
      rewrite getColorAt_inside;
        cbn [width height canvas set_isMouseDown] in *;
        [exact E | |].
      * pose proof (clamp_range (width st) ox Hw). lia.
      * pose proof (clamp_range (height st) oy Hh). lia.
    + apply andb_prop in A. destruct A as [A Hh].
      apply andb_prop in A. destruct A as [Hd Hw].
      apply Z.ltb_lt in Hw, Hh. unfold onMouseMove. rewrite Hd. cbn [negb].
      destruct (pixelAt
                  (strokeLoupe (width st) (height st)
                     (clamp (width st) ox, clamp (height st) oy)
                     (planeData (hue st) (width st) (height st)))
                  (width st) (clamp (width st) ox) (clamp (height st) oy))
        as [[r g] b] eqn:E.
      rewrite (updateLoupeFromEvent_eq strokeLoupe ox oy false st r g b
                 Hw Hh E).
      bitmap_holds. split; [reflexivity |].
      intros _. exists r, g, b. split; [| split; reflexivity].
      rewrite getColorAt_inside; cbn [width height canvas] in *;
        [exact E | |].
      * pose proof (clamp_range (width st) ox Hw). lia.
      * pose proof (clamp_range (height st) oy Hh). lia.
    + unfold onHueMouseDown. set (st1 := set_draggingHue true st).
      destruct (getColorAt (fst (loupe st1)) (snd (loupe st1))
                  (set_canvas
                     (strokeLoupe (width st1) (height st1) (loupe st1)
                        (planeData (hueOfBar (width st1) ox) (width st1)
                           (height st1))) st1))
        as [[r g] b] eqn:E.
      rewrite (updateHueFromEvent_eq strokeLoupe ox st1 r g b E).
      subst st1. bitmap_holds. split; [reflexivity |].
      intros _. exists r, g, b. split; [| split; reflexivity].
      unfold getColorAt in *.
      cbn [width height canvas set_canvas set_draggingHue loupe] in *.
      exact E.
    + unfold onHueMouseMove. rewrite A. cbn [negb].
      destruct (getColorAt (fst (loupe st)) (snd (loupe st))
                  (set_canvas
                     (strokeLoupe (width st) (height st) (loupe st)
                        (planeData (hueOfBar (width st) ox) (width st)
                           (height st))) st))
        as [[r g] b] eqn:E.
      rewrite (updateHueFromEvent_eq strokeLoupe ox st r g b E).
      bitmap_holds. split; [reflexivity |].
      intros _. exists r, g, b. split; [| split; reflexivity].
      unfold getColorAt in *. cbn [width height canvas set_canvas] in *.
      exact E.
    + discriminate.
    + destruct (JS.parseInt vr None) as [r|] eqn:Hr; [| discriminate].
      destruct (JS.parseInt vg None) as [g|] eqn:Hg; [| discriminate].
      destruct (JS.parseInt vb None) as [b|] eqn:Hb; [| discriminate].
      rewrite (handleRgbInput_commit strokeLoupe
                 (set_fields (vr, vg, vb) (hexInput st) st)
                 vr vg vb r g b eq_refl Hr Hg Hb).
      pose proof (commit_eq strokeLoupe r g b
                    (set_fields (vr, vg, vb) (hexInput st) st)) as C.
      cbv zeta in C. rewrite C.
      bitmap_holds. split; [reflexivity | discriminate].
    + destruct (testHexField_hexToRgb hex A) as (r & g & b & E).
      rewrite (handleHexInput_commit strokeLoupe
                 (set_fields (rgbInputs st) hex st) r g b A E).
      pose proof (commit_eq strokeLoupe r g b
                    (set_fields (rgbInputs st) hex st)) as C.
      cbv zeta in C. rewrite C.
      bitmap_holds. split; [reflexivity | discriminate].
    + discriminate.
Qed.

End Aftermath.

(** After a press or a drag on the plane or on the hue bar, and after
    connecting without a seed, the colour the fields show is the colour of
    the pixel under the loupe in the bitmap the component is left with: the
    plane is drawn before it is sampled and is not drawn again. *)
Theorem shown_colour_is_under_the_loupe
    (strokeLoupe : Z -> Z -> Z * Z -> list Z -> list Z)
    (e : entry) (st st' : state) :
  performs strokeLoupe e st st' -> samples e st = true ->
  exists r g b,
    getColorAt (fst (loupe st')) (snd (loupe st')) st' = (r, g, b)
    /\ shows st' r g b.
Proof.
  intros H S. now apply (proj2 (performs_bitmap strokeLoupe e st st' H)).
Qed.

Lemma shown_colour_is_under_the_loupe_witness :
  performs ringStroke (Edit (PlanePress 0 5)) (connect small) pressedGray
  /\ samples (Edit (PlanePress 0 5)) (connect small) = true
  /\ exists r g b,
       getColorAt (fst (loupe pressedGray)) (snd (loupe pressedGray))
         pressedGray = (r, g, b)
       /\ shows pressedGray r g b.
Proof.
  split; [split; reflexivity |]. split; [reflexivity |].
  apply (shown_colour_is_under_the_loupe ringStroke (Edit (PlanePress 0 5))
           (connect small) pressedGray);
    [split; reflexivity | reflexivity].
Defined.

(** A commit shows what was typed, not what is under the loupe: "#123456"
    on the plane of 20 by 10 leaves the loupe at (11, 7), on the nearest
    pixel (24, 57, 89). *)
Example commit_shows_what_was_typed :
  let st' := step ringStroke (HexCommit "#123456") onHue126 in
  shows st' 18 52 86 /\ loupe st' = (11, 7)
  /\ getColorAt 11 7 st' = (24, 57, 89).
Proof. vm_compute. repeat split; reflexivity. Qed.

(** The bitmap an accepted invocation leaves is the one
    [renderCanvasWithHue] draws for the loupe of the end and: the hue of the
    end after a drag, the hue bar, a commit and a seeded connection; the hue
    of before after a press on the plane and after connecting without a
    seed, which resynchronise the hue once the plane is drawn and sampled. *)
Theorem bitmap_after_each_entry_point
    (strokeLoupe : Z -> Z -> Z * Z -> list Z -> list Z)
    (e : entry) (st st' : state) :
  performs strokeLoupe e st st' ->
  canvas st'
  = canvas (renderCanvasWithHue strokeLoupe (planeHueAfter e st st') st').
Proof.
  intros H. exact (proj1 (performs_bitmap strokeLoupe e st st' H)).
Qed.

Lemma bitmap_after_each_entry_point_witness :
  let st' := step ringStroke (PlanePress 4 1) onHue126 in
  performs ringStroke (Edit (PlanePress 4 1)) onHue126 st'
  /\ canvas st'
     = canvas
         (renderCanvasWithHue ringStroke
            (planeHueAfter (Edit (PlanePress 4 1)) onHue126 st') st').
Proof.
  cbv zeta. split; [split; reflexivity |].
  apply (bitmap_after_each_entry_point ringStroke (Edit (PlanePress 4 1))).
  split; reflexivity.
Defined.

(** The press of the witness moves the hue: the pixel (221, 233, 222) of
    the plane of hue 126 has the hue 125, so the component is left with the
    hue 125 and the plane of hue 126 on its bitmap. *)
Example press_moves_the_hue :
  let st' := step ringStroke (PlanePress 4 1) onHue126 in
  hue onHue126 = 126%float /\ hue st' = 125%float
  /\ shows st' 221 233 222
  /\ canvas st' <> canvas (renderCanvasWithHue ringStroke (hue st') st').
Proof.
  cbv zeta. split; [reflexivity |]. split; [vm_compute; reflexivity |].
  split; [vm_compute; split; reflexivity |].
  intros E.
  apply (f_equal (fun d => pixelAt d 20 19 5)) in E. vm_compute in E.
  discriminate E.
Qed.

(** ** Histories *)

Section Histories.
Variable strokeLoupe : Z -> Z -> Z * Z -> list Z -> list Z.

Lemma run_cons (i : input) (inputs : list input) (st : state) :
  run strokeLoupe (i :: inputs) st
  = run strokeLoupe inputs (step strokeLoupe i st).
Proof. reflexivity. Qed.

Lemma run_app (l1 l2 : list input) (st : state) :
  run strokeLoupe (l1 ++ l2) st
  = run strokeLoupe l2 (run strokeLoupe l1 st).
Proof. apply fold_left_app. Qed.

Lemma notifications_no_ready (r g b : Z) (cb : bool) (v : view) :
  ~ In Ready (notifications r g b cb v).
Proof.
  unfold notifications. destruct cb; cbn; intuition discriminate.
Qed.

(** One step: the trace grows by one colour change when the input is
    accepted and stays as it is when it is not. *)
Lemma step_trace (i : input) (st : state) :
  exists added,
    trace (step strokeLoupe i st) = trace st ++ added
    /\ List.length (colorChanges added)
       = (if accepted i st then 1 else 0)%nat
    /\ ~ In Ready added.
Proof.
  destruct (accepted i st) eqn:A.
  - destruct (performs_outcome strokeLoupe (Edit i) st
                (step strokeLoupe i st) (conj A eq_refl))
      as (r & g & b & _ & _ & T & _).
    rewrite app_nil_r in T.
    eexists. split; [exact T |]. split.
    + now rewrite colorChanges_notifications.
    + apply notifications_no_ready.
  - destruct (rejected_is_silent strokeLoupe i st A) as (_ & _ & _ & T & _).
    exists []. rewrite app_nil_r. split; [exact T |]. split; [reflexivity |].
    intros [].
Qed.

Lemma step_size (i : input) (st : state) :
  width (step strokeLoupe i st) = width st
  /\ height (step strokeLoupe i st) = height st.
Proof.
  destruct (accepted i st) eqn:A.
  - destruct (performs_outcome strokeLoupe (Edit i) st
                (step strokeLoupe i st) (conj A eq_refl))
      as (r & g & b & _ & _ & _ & W & H & _).
    now split.
  - destruct (rejected_is_silent strokeLoupe i st A) as (_ & _ & _ & _ & W & H).
    now split.
Qed.

Lemma step_inBounds (i : input) (st : state) :
  0 < width st -> 0 < height st -> inBounds st ->
  inBounds (step strokeLoupe i st).
Proof.
  intros Hw Hh B. destruct (accepted i st) eqn:A.
  - destruct (performs_outcome strokeLoupe (Edit i) st
                (step strokeLoupe i st) (conj A eq_refl))
      as (r & g & b & _ & _ & _ & W & H & L).
    unfold inBounds, loupeAfter in *. rewrite W, H.
    destruct i as [ox oy|ox oy|ox|ox| |vr vg vb|hex|f];
      try (rewrite L; cbn [fst snd];
           pose proof (clamp_range (width st) ox Hw);
           pose proof (clamp_range (height st) oy Hh); lia);
      try (rewrite L; exact B);
      try (destruct L as [data ->];
           pose proof (locate_onPlane data (width st) (height st) r g b Hw Hh);
           lia).
  - destruct (rejected_is_silent strokeLoupe i st A)
      as (_ & L & _ & _ & W & H).
    unfold inBounds. now rewrite L, W, H.
Qed.

Lemma run_inBounds (inputs : list input) (st : state) :
  0 < width st -> 0 < height st -> inBounds st ->
  inBounds (run strokeLoupe inputs st)
  /\ width (run strokeLoupe inputs st) = width st
  /\ height (run strokeLoupe inputs st) = height st.
Proof.
  revert st. induction inputs as [|i inputs IH]; intros st Hw Hh B.
  - split; [exact B | split; reflexivity].
  - rewrite run_cons. destruct (step_size i st) as [W H].
    destruct (IH (step strokeLoupe i st)) as (B' & W' & H').
    + now rewrite W.
    + now rewrite H.
    + now apply step_inBounds.
    + split; [exact B' |]. now rewrite W', H'.
Qed.

(** A seed that is followed lets the component connect. *)
Lemma connects (st : state) :
  match selectedColor st with
  | None | Some "" => True
  | Some s => parseSeed s <> None
  end ->
  exists st', connectedCallback strokeLoupe st = Some st'.
Proof.
  intros R.
  destruct (getColorAt (fst (loupe st)) (snd (loupe st))
              (set_canvas
                 (strokeLoupe (width st) (height st) (loupe st)
                    (planeData (hue st) (width st) (height st))) st))
    as [[r g] b] eqn:E.
  destruct (selectedColor st) as [[|c s]|] eqn:S.
  - eexists. exact (connectedCallback_default strokeLoupe st r g b
                      (or_intror S) E).
  - destruct (parseSeed (String c s)) as [[[r' g'] b']|] eqn:P;
      [| now elim R].
    eexists. exact (connectedCallback_seed strokeLoupe st c s r' g' b' S P).
  - eexists. exact (connectedCallback_default strokeLoupe st r g b
                      (or_introl S) E).
Qed.

End Histories.

(** On a component of positive size, over a whole history of inputs the
    trace only grows, and it grows by as many colour changes as there are
    accepted inputs: one for each, none for a drag without a press, a
    release, a malformed commit or the setting of the callback. No edit
    dispatches [ready]. *)
Theorem one_colour_change_for_each_accepted_input
    (strokeLoupe : Z -> Z -> Z * Z -> list Z -> list Z)
    (inputs : list input) (st : state) :
  0 < width st -> 0 < height st ->
  exists added,
    trace (run strokeLoupe inputs st) = trace st ++ added
    /\ List.length (colorChanges added)
       = acceptedCount strokeLoupe inputs st
    /\ ~ In Ready added.
Proof.
  revert st. induction inputs as [|i inputs IH]; intros st Hw Hh.
  - exists []. rewrite app_nil_r. repeat split. intros [].
  - rewrite run_cons. cbn [acceptedCount].
    destruct (step_trace strokeLoupe i st) as (a1 & T1 & L1 & R1).
    destruct (step_size strokeLoupe i st) as [W H].
    destruct (IH (step strokeLoupe i st)) as (a2 & T2 & L2 & R2);
      [now rewrite W | now rewrite H |].
    exists (a1 ++ a2). split; [| split].
    + now rewrite T2, T1, app_assoc.
    + now rewrite colorChanges_app, length_app, L1, L2.
    + intros I. apply in_app_or in I. tauto.
Qed.

Lemma one_colour_change_for_each_accepted_input_witness :
  let inputs :=
    [PlaneDrag 3 3; PlanePress 4 4; PlaneDrag 5 5; RgbCommit "1" "x" "3";
     Release; HueDrag 6] in
  exists added,
    trace (run ringStroke inputs (connect small))
    = trace (connect small) ++ added
    /\ List.length (colorChanges added)
       = acceptedCount ringStroke inputs (connect small)
    /\ ~ In Ready added.
Proof.
  apply (one_colour_change_for_each_accepted_input ringStroke); reflexivity.
Defined.

(** A gesture on the 20 by 10 plane: a drag before any press, a press, two
    drags, a release and a last drag are six inputs, three of them accepted;
    the trace has three colour changes more. *)
Example three_of_six :
  let inputs :=
    [PlaneDrag 3 3; PlanePress 4 4; PlaneDrag 5 5; PlaneDrag 50 50; Release;
     PlaneDrag 6 6] in
  acceptedCount ringStroke inputs (connect small) = 3%nat
  /\ List.length (colorChanges (trace (run ringStroke inputs (connect small))))
     = 4%nat
  /\ loupe (run ringStroke inputs (connect small)) = (19, 9).
Proof. vm_compute. repeat split; reflexivity. Qed.

(** ** Invariant 3 on the planes that hold the loupe of the constructor *)

(** A component whose plane is wider than 150 and higher than 75 (the
    default 300 by 150 is) connects, when its seed is one that can be
    followed, with the loupe on the plane, and every history of inputs
    leaves it on the plane. *)
Theorem loupe_on_plane_from_connect
    (strokeLoupe : Z -> Z -> Z * Z -> list Z -> list Z)
    (a : attributes) (inputs : list input) :
  seedReadable a = true ->
  150 < width (constructor a) -> 75 < height (constructor a) ->
  exists st0,
    connectedCallback strokeLoupe (constructor a) = Some st0
    /\ inBounds st0
    /\ inBounds (run strokeLoupe inputs st0).
Proof.
  intros R Hw Hh.
  destruct (connects strokeLoupe (constructor a)) as [st0 C].
  { unfold seedReadable in R. cbn [selectedColor constructor].
    destruct (attr_selectedcolor a) as [[|c s]|]; try exact I.
    destruct (parseSeed (String c s)); [discriminate | discriminate R]. }
  exists st0. split; [exact C |].
  destruct (performs_outcome strokeLoupe Connect (constructor a) st0 C)
    as (r & g & b & _ & _ & _ & W & H & L).
  cbn [loupeAfter] in L.
  assert (B : inBounds st0).
  { unfold inBounds. rewrite L, W, H. cbn [loupe constructor fst snd]. lia. }
  split; [exact B |].
  apply run_inBounds; [rewrite W; lia | rewrite H; lia | exact B].
Qed.

Lemma loupe_on_plane_from_connect_witness :
  let a := mkAttributes (Some "300") (Some "150") (Some "255,0,0") in
  exists st0,
    connectedCallback ringStroke (constructor a) = Some st0
    /\ inBounds st0
    /\ inBounds
         (run ringStroke [PlanePress 500 (-3); HexCommit "#00ff00"; HueDrag 9]
            st0).
Proof.
  apply (loupe_on_plane_from_connect ringStroke
           (mkAttributes (Some "300") (Some "150") (Some "255,0,0")));
    [reflexivity | vm_compute; reflexivity | vm_compute; reflexivity].
Defined.

(** The other side of C9: on a plane that does not hold the point
    (150, 75), connecting without a seed samples outside the bitmap, and
    the default colour is black, whatever the hue and the canvas: the
    fields show (0, 0, 0) and "#000000" and that is the colour notified. *)
Theorem default_colour_off_the_plane
    (strokeLoupe : Z -> Z -> Z * Z -> list Z -> list Z) (a : attributes) :
  attr_selectedcolor a = None \/ attr_selectedcolor a = Some "" ->
  width (constructor a) <= 150 \/ height (constructor a) <= 75 ->
  exists st0,
    connectedCallback strokeLoupe (constructor a) = Some st0
    /\ shows st0 0 0 0 /\ hexInput st0 = "#000000" /\ hue st0 = 0%float
    /\ colorChanges (trace st0)
       = [(mkDetail 0 0 0 "#000000", observe st0)].
Proof.
  intros S Small. set (st := constructor a).
  assert (E : getColorAt (fst (loupe st)) (snd (loupe st))
                (set_canvas
                   (strokeLoupe (width st) (height st) (loupe st)
                      (planeData (hue st) (width st) (height st))) st)
              = (0, 0, 0)).
  { unfold getColorAt. cbn [width height set_canvas].
    change (loupe st) with (150, 75). cbn [fst snd].
    destruct (Z.ltb_spec 150 (width st)), (Z.ltb_spec 75 (height st));
      cbn; try reflexivity; subst st; lia. }
  eexists. split.
  - apply (connectedCallback_default strokeLoupe st 0 0 0); [exact S | exact E].
  - unfold shows. cbn [rgbInputs hexInput hue trace observe loupe canvas].
    repeat split.
Qed.

Lemma default_colour_off_the_plane_witness :
  let a := mkAttributes (Some "100") (Some "50") None in
  exists st0,
    connectedCallback ringStroke (constructor a) = Some st0
    /\ shows st0 0 0 0 /\ hexInput st0 = "#000000" /\ hue st0 = 0%float
    /\ colorChanges (trace st0)
       = [(mkDetail 0 0 0 "#000000", observe st0)].
Proof.
  apply (default_colour_off_the_plane ringStroke
           (mkAttributes (Some "100") (Some "50") None));
    [left; reflexivity | left; vm_compute; discriminate].
Defined.

(** ** Gestures *)

Section Gestures.
Variable strokeLoupe : Z -> Z -> Z * Z -> list Z -> list Z.

Lemma updateLoupeFromEvent_frame (ox oy : Z) (sync : bool) (st : state) :
  frame st (updateLoupeFromEvent strokeLoupe ox oy sync st).
Proof.
  destruct (Z.ltb_spec 0 (width st)) as [Hw | Hw];
    [destruct (Z.ltb_spec 0 (height st)) as [Hh | Hh] |].
  - destruct (pixelAt
                (strokeLoupe (width st) (height st)
                   (clamp (width st) ox, clamp (height st) oy)
                   (planeData (hue st) (width st) (height st)))
                (width st) (clamp (width st) ox) (clamp (height st) oy))
      as [[r g] b] eqn:E.
    rewrite (updateLoupeFromEvent_eq strokeLoupe ox oy sync st r g b Hw Hh E).
    repeat split.
  - rewrite updateLoupeFromEvent_empty by lia. repeat split.
  - rewrite updateLoupeFromEvent_empty by lia. repeat split.
Qed.

Lemma updateHueFromEvent_frame (ox : Z) (st : state) :
  frame st (updateHueFromEvent strokeLoupe ox st).
Proof.
  destruct (getColorAt (fst (loupe st)) (snd (loupe st))
              (set_canvas
                 (strokeLoupe (width st) (height st) (loupe st)
                    (planeData (hueOfBar (width st) ox) (width st)
                       (height st))) st))
    as [[r g] b] eqn:E.
  rewrite (updateHueFromEvent_eq strokeLoupe ox st r g b E). repeat split.
Qed.

Lemma commit_frame (r g b : Z) (st : state) :
  frame st (commit strokeLoupe r g b st).
Proof.
  pose proof (commit_eq strokeLoupe r g b st) as C. cbv zeta in C.
  rewrite C. repeat split.
Qed.

Lemma handleRgbInput_frame (st : state) :
  frame st (handleRgbInput strokeLoupe st).
Proof.
  destruct (rgbInputs st) as [[vr vg] vb] eqn:F.
  destruct (JS.parseInt vr None) as [r|] eqn:Hr;
    [destruct (JS.parseInt vg None) as [g|] eqn:Hg;
     [destruct (JS.parseInt vb None) as [b|] eqn:Hb |] |].
  - rewrite (handleRgbInput_commit strokeLoupe st vr vg vb r g b F Hr Hg Hb).
    apply commit_frame.
  - rewrite (handleRgbInput_ignored strokeLoupe st vr vg vb F);
      [repeat split | rewrite Hr, Hg, Hb; reflexivity].
  - rewrite (handleRgbInput_ignored strokeLoupe st vr vg vb F);
      [repeat split | rewrite Hr, Hg; reflexivity].
  - rewrite (handleRgbInput_ignored strokeLoupe st vr vg vb F);
      [repeat split | rewrite Hr; reflexivity].
Qed.

Lemma handleHexInput_frame (st : state) :
  frame st (handleHexInput strokeLoupe st).
Proof.
  destruct (testHexField (hexInput st)) eqn:T.
  - destruct (testHexField_hexToRgb _ T) as (r & g & b & E).
    rewrite (handleHexInput_commit strokeLoupe st r g b T E).
    apply commit_frame.
  - rewrite handleHexInput_ignored by exact T. repeat split.
Qed.

(** A drag on the plane, in two components of the same size and hue with
    the button down. *)
Lemma plane_drag_look (ox oy : Z) (st1 st2 : state) :
  isMouseDown st1 = true -> isMouseDown st2 = true ->
  0 < width st1 -> 0 < height st1 ->
  width st2 = width st1 -> height st2 = height st1 -> hue st2 = hue st1 ->
  sameLook (step strokeLoupe (PlaneDrag ox oy) st2)
    (step strokeLoupe (PlaneDrag ox oy) st1)
  /\ hue (step strokeLoupe (PlaneDrag ox oy) st2) = hue st1.
Proof.
  intros D1 D2 Hw Hh W H U. cbn [step]. unfold onMouseMove.
  rewrite D1, D2. cbn [negb].
  destruct (pixelAt
              (strokeLoupe (width st1) (height st1)
                 (clamp (width st1) ox, clamp (height st1) oy)
                 (planeData (hue st1) (width st1) (height st1)))
              (width st1) (clamp (width st1) ox) (clamp (height st1) oy))
    as [[r g] b] eqn:E.
  rewrite (updateLoupeFromEvent_eq strokeLoupe ox oy false st1 r g b Hw Hh E).
  assert (E2 : pixelAt
                 (strokeLoupe (width st2) (height st2)
                    (clamp (width st2) ox, clamp (height st2) oy)
                    (planeData (hue st2) (width st2) (height st2)))
                 (width st2) (clamp (width st2) ox) (clamp (height st2) oy)
               = (r, g, b))
    by (rewrite W, H, U; exact E).
  rewrite (updateLoupeFromEvent_eq strokeLoupe ox oy false st2 r g b
             ltac:(lia) ltac:(lia) E2).
  unfold sameLook. cbn [hue loupe canvas rgbInputs hexInput].
  rewrite W, H, U. repeat split.
Qed.

(** A drag on the hue bar, in two components of the same size with the
    loupe at the same place. *)
Lemma hue_drag_look (ox : Z) (st1 st2 : state) :
  draggingHue st1 = true -> draggingHue st2 = true ->
  width st2 = width st1 -> height st2 = height st1 ->
  loupe st2 = loupe st1 ->
  sameLook (step strokeLoupe (HueDrag ox) st2)
    (step strokeLoupe (HueDrag ox) st1)
  /\ loupe (step strokeLoupe (HueDrag ox) st2) = loupe st1.
Proof.
  intros D1 D2 W H L. cbn [step]. unfold onHueMouseMove.
  rewrite D1, D2. cbn [negb].
  destruct (getColorAt (fst (loupe st1)) (snd (loupe st1))
              (set_canvas
                 (strokeLoupe (width st1) (height st1) (loupe st1)
                    (planeData (hueOfBar (width st1) ox) (width st1)
                       (height st1))) st1))
    as [[r g] b] eqn:E.
  rewrite (updateHueFromEvent_eq strokeLoupe ox st1 r g b E).
  assert (E2 : getColorAt (fst (loupe st2)) (snd (loupe st2))
                 (set_canvas
                    (strokeLoupe (width st2) (height st2) (loupe st2)
                       (planeData (hueOfBar (width st2) ox) (width st2)
                          (height st2))) st2)
               = (r, g, b)).
  { unfold getColorAt in *. cbn [width height canvas set_canvas] in *.
    rewrite W, H, L. exact E. }
  rewrite (updateHueFromEvent_eq strokeLoupe ox st2 r g b E2).
  unfold sameLook. cbn [hue loupe canvas rgbInputs hexInput].
  rewrite W, H, L. repeat split.
Qed.

Lemma plane_gesture (ox oy : Z) (ds : list input) (st1 st2 : state) :
  forallb isPlaneDrag ds = true ->
  isMouseDown st1 = true -> isMouseDown st2 = true ->
  0 < width st1 -> 0 < height st1 ->
  width st2 = width st1 -> height st2 = height st1 -> hue st2 = hue st1 ->
  sameLook (run strokeLoupe (ds ++ [PlaneDrag ox oy]) st2)
    (step strokeLoupe (PlaneDrag ox oy) st1).
Proof.
  revert st2. induction ds as [|d ds IH]; intros st2 G D1 D2 Hw Hh W H U.
  - now apply plane_drag_look.
  - cbn [forallb] in G. apply andb_prop in G. destruct G as [Gd G].
    destruct d as [| px py | | | | | |]; try discriminate Gd.
    cbn [app]. rewrite run_cons.
    destruct (plane_drag_look px py st2 st2 D2 D2 ltac:(lia) ltac:(lia)
                eq_refl eq_refl eq_refl) as [_ U'].
    pose proof (updateLoupeFromEvent_frame px py false st2)
      as (F1 & _ & _ & _ & F5 & F6).
    assert (S : step strokeLoupe (PlaneDrag px py) st2
                = updateLoupeFromEvent strokeLoupe px py false st2)
      by (cbn [step]; unfold onMouseMove; now rewrite D2).
    apply IH; try assumption; rewrite ?S, ?F1, ?F5, ?F6; try assumption.
    rewrite <- S. congruence.
Qed.

Lemma hue_gesture (ox : Z) (ds : list input) (st1 st2 : state) :
  forallb isHueDrag ds = true ->
  draggingHue st1 = true -> draggingHue st2 = true ->
  width st2 = width st1 -> height st2 = height st1 ->
  loupe st2 = loupe st1 ->
  sameLook (run strokeLoupe (ds ++ [HueDrag ox]) st2)
    (step strokeLoupe (HueDrag ox) st1).
Proof.
  revert st2. induction ds as [|d ds IH]; intros st2 G D1 D2 W H L.
  - now apply hue_drag_look.
  - cbn [forallb] in G. apply andb_prop in G. destruct G as [Gd G].
    destruct d as [| | | px | | | |]; try discriminate Gd.
    cbn [app]. rewrite run_cons.
    destruct (hue_drag_look px st2 st2 D2 D2 eq_refl eq_refl eq_refl)
      as [_ L'].
    pose proof (updateHueFromEvent_frame px st2) as (_ & F2 & _ & _ & F5 & F6).
    assert (S : step strokeLoupe (HueDrag px) st2
                = updateHueFromEvent strokeLoupe px st2)
      by (cbn [step]; unfold onHueMouseMove; now rewrite D2).
    apply IH; try assumption; rewrite ?S, ?F2, ?F5, ?F6; try assumption.
    rewrite <- S. congruence.
Qed.

End Gestures.

(** A drag has no memory. When a drag on the plane (or on the hue bar) is
    accepted, the hue, the loupe, the bitmap and the four fields it leaves
    after any number of drags on the same surface before it are those it
    leaves when it comes alone: only the trace tells the two apart. *)
Theorem drag_has_no_memory
    (strokeLoupe : Z -> Z -> Z * Z -> list Z -> list Z)
    (d : input) (ds : list input) (st : state) :
  gesture d ds = true -> accepted d st = true ->
  sameLook (run strokeLoupe (ds ++ [d]) st) (step strokeLoupe d st).
Proof.
  intros G A. destruct d as [| ox oy | | ox | | | |]; try discriminate G;
    cbn [gesture accepted] in *.
  - apply andb_prop in A. destruct A as [A Hh].
    apply andb_prop in A. destruct A as [D Hw].
    apply Z.ltb_lt in Hw, Hh.
    now apply plane_gesture.
  - now apply hue_gesture.
Qed.

Lemma drag_has_no_memory_witness :
  let st := step ringStroke (PlanePress 4 4) (connect small) in
  let ds := [PlaneDrag 5 5; PlaneDrag 50 50; PlaneDrag (-3) 2] in
  sameLook (run ringStroke (ds ++ [PlaneDrag 7 8]) st)
    (step ringStroke (PlaneDrag 7 8) st).
Proof.
  apply (drag_has_no_memory ringStroke (PlaneDrag 7 8)); reflexivity.
Defined.

(** Each handler sets the flag of its own gesture and no other: a press
    on the plane arms the drag on the plane, a press on the hue bar the drag
    on the hue bar, a release on the document disarms both, and the setter
    sets the callback; this holds for a press on a plane without pixels
    too, which arms the drag and does nothing else. No edit changes the
    size or the seed. *)
Theorem flags_follow_press_and_release
    (strokeLoupe : Z -> Z -> Z * Z -> list Z -> list Z)
    (i : input) (st : state) :
  let st' := step strokeLoupe i st in
  isMouseDown st'
  = match i with
    | PlanePress _ _ => true
    | Release => false
    | _ => isMouseDown st
    end
  /\ draggingHue st'
     = match i with
       | HuePress _ => true
       | Release => false
       | _ => draggingHue st
       end
  /\ onColorChangeCallback st'
     = match i with
       | SetOnColorChange f => f
       | _ => onColorChangeCallback st
       end
  /\ selectedColor st' = selectedColor st
  /\ width st' = width st /\ height st' = height st.
Proof.
  cbv zeta. destruct i as [ox oy|ox oy|ox|ox| |vr vg vb|hex|f]; cbn [step].
  - unfold onMouseDown.
    destruct (updateLoupeFromEvent_frame strokeLoupe ox oy true
                (set_isMouseDown true st)) as (F1 & F2 & F3 & F4 & F5 & F6).
    rewrite F1, F2, F3, F4, F5, F6. repeat split.
  - unfold onMouseMove. destruct (isMouseDown st) eqn:D; cbn [negb];
      [| rewrite D; repeat split].
    destruct (updateLoupeFromEvent_frame strokeLoupe ox oy false st)
      as (F1 & F2 & F3 & F4 & F5 & F6).
    rewrite F1, F2, F3, F4, F5, F6, D. repeat split.
  - unfold onHueMouseDown.
    destruct (updateHueFromEvent_frame strokeLoupe ox
                (set_draggingHue true st)) as (F1 & F2 & F3 & F4 & F5 & F6).
    rewrite F1, F2, F3, F4, F5, F6. repeat split.
  - unfold onHueMouseMove. destruct (draggingHue st) eqn:D; cbn [negb];
      [| rewrite D; repeat split].
    destruct (updateHueFromEvent_frame strokeLoupe ox st)
      as (F1 & F2 & F3 & F4 & F5 & F6).
    rewrite F1, F2, F3, F4, F5, F6, D. repeat split.
  - repeat split.
  - destruct (handleRgbInput_frame strokeLoupe
                (set_fields (vr, vg, vb) (hexInput st) st))
      as (F1 & F2 & F3 & F4 & F5 & F6).
    rewrite F1, F2, F3, F4, F5, F6. repeat split.
  - destruct (handleHexInput_frame strokeLoupe
                (set_fields (rgbInputs st) hex st))
      as (F1 & F2 & F3 & F4 & F5 & F6).
    rewrite F1, F2, F3, F4, F5, F6. repeat split.
  - repeat split.
Qed.

(** ** The seed *)

Lemma string_append_assoc (s t u : string) :
  ((s ++ t) ++ u)%string = (s ++ (t ++ u))%string.
Proof. induction s as [|c s IH]; cbn; [reflexivity | now rewrite IH]. Qed.

(** [split(',')] goes through a text without a comma in one piece. *)
Lemma splitComma_piece (s t cur : string) :
  noComma s = true ->
  splitComma (s ++ String "," t) cur = (cur ++ s)%string :: splitComma t "".
Proof.
  revert cur. induction s as [|c s IH]; intros cur N.
  - cbn. now rewrite append_empty_r.
  - cbn [noComma] in N. apply andb_prop in N. destruct N as [Nc N].
    apply negb_true_iff in Nc. cbn [String.append splitComma]. rewrite Nc.
    rewrite IH by exact N. now rewrite string_append_assoc.
Qed.

Lemma splitComma_last (s cur : string) :
  noComma s = true -> splitComma s cur = [(cur ++ s)%string].
Proof.
  revert cur. induction s as [|c s IH]; intros cur N.
  - cbn. now rewrite append_empty_r.
  - cbn [noComma] in N. apply andb_prop in N. destruct N as [Nc N].
    apply negb_true_iff in Nc. cbn [splitComma]. rewrite Nc.
    rewrite IH by exact N. now rewrite string_append_assoc.
Qed.

Lemma allDecimal_noComma (s : string) : allDecimal s = true -> noComma s = true.
Proof.
  induction s as [|c s IH]; [reflexivity |]. cbn [allDecimal noComma].
  destruct (JS.digitIn 10 c) eqn:D; [| discriminate]. intros A.
  rewrite (IH A), andb_true_r.
  assert (I : In c (list_ascii_of_string "0123456789"))
    by (apply decimal_digit_cases; congruence).
  each_digit I; reflexivity.
Qed.

(** The digits of a number that is not negative: decimal digits, at least
    one, that read back as the number. *)
Lemma digits_readback (m : Z) :
  0 <= m ->
  let d := JS.toDigits (S (Z.to_nat (Z.log2 m))) 10 m "" in
  allDecimal d = true /\ d <> "" /\ JS.parseDigits 10 d None = Some m.
Proof.
  intros Hm. cbv zeta. split; [| split].
  - now apply toDigits_allDecimal.
  - apply toDigits_nonempty.
  - rewrite parseDigits_toDigits; [reflexivity |].
    split; [exact Hm |].
    destruct (Z.eq_dec m 0) as [-> | Nz]; [reflexivity |].
    rewrite Nat2Z.inj_succ, Z2Nat.id by apply Z.log2_nonneg.
    apply Z.log2_spec. lia.
Qed.

Lemma toString_noComma (n : Z) : noComma (JS.toString 10 n) = true.
Proof.
  unfold JS.toString. destruct (Z.ltb_spec n 0) as [Neg | Pos].
  - cbn [noComma]. destruct (digits_readback (- n) ltac:(lia)) as [A _].
    now rewrite (allDecimal_noComma _ A).
  - destruct (digits_readback n Pos) as [A _]. now apply allDecimal_noComma.
Qed.

Lemma decimalPrefix_allDecimal (s : string) (acc : option Z) :
  allDecimal s = true -> decimalPrefix s acc = (JS.parseDigits 10 s acc, "").
Proof.
  revert acc. induction s as [|c s IH]; intros acc A; [reflexivity |].
  cbn [allDecimal] in A. cbn [decimalPrefix JS.parseDigits].
  destruct (JS.digitIn 10 c); [now apply IH | discriminate].
Qed.

Lemma NumberInteger_digits (d : string) (m : Z) :
  allDecimal d = true -> d <> "" -> JS.parseDigits 10 d None = Some m ->
  m < 2 ^ 53 ->
  NumberInteger d = Some m /\ NumberInteger (String "-" d) = Some (- m).
Proof.
  intros A N P Hm.
  assert (Lt : (m <? 2 ^ 53) = true) by (apply Z.ltb_lt; exact Hm).
  assert (Q : decimalPrefix d None = (Some m, ""))
    by (rewrite decimalPrefix_allDecimal by exact A; now rewrite P).
  destruct d as [|c d']; [now elim N |].
  assert (I : In c (list_ascii_of_string "0123456789")).
  { apply decimal_digit_cases. cbn [allDecimal] in A.
    destruct (JS.digitIn 10 c); [discriminate | discriminate A]. }
  split.
  - unfold NumberInteger.
    assert (T : JS.trimStart (String c d') = String c d')
      by (each_digit I; reflexivity).
    rewrite T.
    assert (S1 : Ascii.eqb c "-" = false) by (each_digit I; reflexivity).
    assert (S2 : Ascii.eqb c "+" = false) by (each_digit I; reflexivity).
    rewrite S1, S2, Q. cbn [allWhiteSpace andb]. rewrite Lt. f_equal. lia.
  - unfold NumberInteger.
    change (JS.trimStart (String "-" (String c d')))
      with (String "-" (String c d')).
    cbv beta iota zeta. rewrite (Ascii.eqb_refl "-"). cbv beta iota zeta.
    rewrite Q. cbn [allWhiteSpace andb]. rewrite Lt. f_equal; lia.
Qed.

(** [Number] reads back what the decimal [toString] writes. *)
Lemma NumberInteger_toString (n : Z) :
  safeInteger n -> NumberInteger (JS.toString 10 n) = Some n.
Proof.
  intros [Lo Hi].
  unfold JS.toString. destruct (Z.ltb_spec n 0) as [Neg | Pos].
  - destruct (digits_readback (- n) ltac:(lia)) as (A & N & P).
    destruct (NumberInteger_digits _ (- n) A N P ltac:(lia)) as [_ ->].
    f_equal. lia.
  - destruct (digits_readback n Pos) as (A & N & P).
    now destruct (NumberInteger_digits _ n A N P Hi) as [-> _].
Qed.

Lemma toString_nonempty (n : Z) : exists c s, JS.toString 10 n = String c s.
Proof.
  unfold JS.toString. destruct (n <? 0); [now eexists; eexists |].
  destruct (JS.toDigits _ 10 n "") as [|c s] eqn:E;
    [now apply toDigits_nonempty in E | now exists c, s].
Qed.

Lemma parseSeed_seedText (r g b : Z) :
  safeInteger r -> safeInteger g -> safeInteger b ->
  parseSeed (seedText r g b) = Some (r, g, b)
  /\ exists c s, seedText r g b = String c s.
Proof.
  intros Sr Sg Sb. split.
  - unfold parseSeed, split, seedText.
    change ("," ++ JS.toString 10 g ++ "," ++ JS.toString 10 b)%string
      with (String "," (JS.toString 10 g ++ String "," (JS.toString 10 b)))
           %string.
    rewrite !splitComma_piece, splitComma_last by apply toString_noComma.
    cbn [String.append map]. now rewrite !NumberInteger_toString.
  - unfold seedText. destruct (toString_nonempty r) as (c & s & ->).
    cbn [String.append]. now eexists; eexists.
Qed.

(** A component whose [selectedcolor] is three integers in decimal with
    commas between them, each below 2^53 in magnitude, connects on that
    colour: the fields show the three numbers as they are (nothing holds
    them within 0 and 255), the hue follows the rule of invariant 2 from
    the hue 0 of the constructor, one colour change is notified, and the
    loupe stays at the (150, 75) of the constructor: the seed is not looked
    up on the plane. *)
Theorem seeded_connection
    (strokeLoupe : Z -> Z -> Z * Z -> list Z -> list Z)
    (w h : option string) (r g b : Z) :
  safeInteger r -> safeInteger g -> safeInteger b ->
  let st := constructor (mkAttributes w h (Some (seedText r g b))) in
  exists st0,
    connectedCallback strokeLoupe st = Some st0
    /\ shows st0 r g b
    /\ hueRule r g b 0%float (hue st0)
    /\ loupe st0 = (150, 75)
    /\ trace st0
       = [ColorChange (mkDetail r g b (rgbToHex r g b)) (observe st0);
          PreviewBackground (rgbToHex r g b); Ready].
Proof.
  intros Sr Sg Sb. cbv zeta.
  destruct (parseSeed_seedText r g b Sr Sg Sb) as (P & c & s & E).
  rewrite E in *. eexists. split.
  - now apply (connectedCallback_seed strokeLoupe _ c s r g b).
  - unfold shows. cbn [rgbInputs hexInput hue loupe trace constructor observe
                       onColorChangeCallback canvas notifications app].
    repeat split; try apply hueRule_sync.
Qed.

(** The seed of the README, and one outside the bytes. *)
Example seedText_readme : seedText 244 83 255 = "244,83,255".
Proof. reflexivity. Qed.

Lemma seeded_connection_witness :
  let st := constructor (mkAttributes None None (Some (seedText 300 (-1) 0))) in
  exists st0,
    connectedCallback ringStroke st = Some st0
    /\ shows st0 300 (-1) 0
    /\ hueRule 300 (-1) 0 0%float (hue st0)
    /\ loupe st0 = (150, 75)
    /\ trace st0
       = [ColorChange (mkDetail 300 (-1) 0 (rgbToHex 300 (-1) 0))
            (observe st0);
          PreviewBackground (rgbToHex 300 (-1) 0); Ready].
Proof.
  apply (seeded_connection ringStroke None None 300 (-1) 0);
    split; reflexivity.
Defined.

(** ** The range of [hexToRgb] *)

Lemma parseGroup_byte_table :
  forallb
    (fun c1 =>
       forallb
         (fun c2 =>
            (0 <=? parseGroup (string2 c1 c2))
            && (parseGroup (string2 c1 c2) <=? 255))
         hexChars)
    hexChars = true.
Proof. vm_compute. reflexivity. Qed.

Lemma parseGroup_byte (c1 c2 : ascii) :
  isHexDigit c1 = true -> isHexDigit c2 = true ->
  isByte (parseGroup (string2 c1 c2)).
Proof.
  intros H1 H2. pose proof parseGroup_byte_table as T.
  rewrite forallb_forall in T.
  specialize (T c1 (isHexDigit_In c1 H1)).
  rewrite forallb_forall in T.
  specialize (T c2 (isHexDigit_In c2 H2)).
  apply andb_prop in T. unfold isByte. lia.
Qed.

(** The triples [hexToRgb] returns are the triples of bytes, all of them:
    what it decodes is three numbers from 0 to 255, and every such triple
    is decoded from a text, the one [rgbToHex] writes for it. *)
Theorem hexToRgb_returns_the_bytes (r g b : Z) :
  (exists s, hexToRgb s = Some (r, g, b))
  <-> isByte r /\ isByte g /\ isByte b.
Proof.
  split.
  - intros [s E].
    assert (V : validHex6 s = true) by (apply hexToRgb_valid; congruence).
    destruct (validHex6_inv s V) as (c1 & c2 & c3 & c4 & c5 & c6 & B & D).
    unfold hexToRgb in E. rewrite execHexToRgb_stripHash, B, D in E.
    injection E as <- <- <-.
    cbn [forallb] in D. repeat (apply andb_prop in D; destruct D as [? D]).
    repeat split; now apply parseGroup_byte.
  - intros (Hr & Hg & Hb). exists (rgbToHex r g b).
    now apply hexToRgb_rgbToHex.
Qed.

(** ** The two commits on the colour the fields show *)

Section Commits.
Variable strokeLoupe : Z -> Z -> Z * Z -> list Z -> list Z.

Lemma shown_rgb_commit (st : state) (r g b : Z) :
  shows st r g b ->
  handleRgbInput strokeLoupe st = commit strokeLoupe r g b st.
Proof.
  intros [F _].
  apply (handleRgbInput_commit strokeLoupe st _ _ _ r g b F);
    apply parseInt_toString.
Qed.

Lemma shown_hex_commit (st : state) (r g b : Z) :
  shows st r g b -> isByte r -> isByte g -> isByte b ->
  handleHexInput strokeLoupe st = commit strokeLoupe r g b st.
Proof.
  intros [_ H] Hr Hg Hb.
  destruct (hexToRgb_rgbToHex r g b Hr Hg Hb) as [E T].
  apply handleHexInput_commit; now rewrite H.
Qed.

Lemma commit_hue (r g b : Z) (st : state) :
  hue (commit strokeLoupe r g b st)
  = if spread r g b <? 10 then hue st else hueOfRgb r g b.
Proof.
  pose proof (commit_eq strokeLoupe r g b st) as C. cbv zeta in C.
  now rewrite C.
Qed.

End Commits.

(** When the fields show a colour of three bytes, a change of the RGB
    fields and a change of the hex field, with the texts left as they are,
    do the same: the two handlers end in the same state, which shows the
    same colour. Doing it again leaves the hue where the first commit put
    it. *)
Theorem the_two_commits_agree
    (strokeLoupe : Z -> Z -> Z * Z -> list Z -> list Z)
    (st : state) (r g b : Z) :
  shows st r g b -> isByte r -> isByte g -> isByte b ->
  let st' := handleRgbInput strokeLoupe st in
  handleHexInput strokeLoupe st = st'
  /\ shows st' r g b
  /\ hue (handleRgbInput strokeLoupe st') = hue st'
  /\ hue (handleHexInput strokeLoupe st') = hue st'.
Proof.
  intros S Hr Hg Hb. cbv zeta.
  rewrite (shown_rgb_commit strokeLoupe st r g b S).
  rewrite (shown_hex_commit strokeLoupe st r g b S Hr Hg Hb).
  pose proof (commit_shows_and_notifies strokeLoupe r g b st) as [S' _].
  cbv zeta in S'.
  split; [reflexivity |]. split; [exact S' |].
  rewrite (shown_rgb_commit strokeLoupe _ r g b S').
  rewrite (shown_hex_commit strokeLoupe _ r g b S' Hr Hg Hb).
  rewrite !commit_hue. destruct (spread r g b <? 10); split; reflexivity.
Qed.

Lemma the_two_commits_agree_witness :
  let st' := handleRgbInput ringStroke pressedGray in
  handleHexInput ringStroke pressedGray = st'
  /\ shows st' 113 113 113
  /\ hue (handleRgbInput ringStroke st') = hue st'
  /\ hue (handleHexInput ringStroke st') = hue st'.
Proof.
  apply (the_two_commits_agree ringStroke pressedGray 113 113 113);
    [vm_compute; split; reflexivity | | |];
    unfold isByte; lia.
Defined.

(** ** The bytes of the plane *)

Lemma toUint8Clamp_byte (x : float) : isByte (JS.toUint8Clamp x).
Proof.
  unfold isByte, JS.toUint8Clamp.
  destruct (Prim2SF x) as [s | s | | s m e]; try destruct s; try lia.
  destruct (Z.leb_spec 0 e) as [He | He].
  - assert (0 < 2 ^ e) by (apply Z.pow_pos_nonneg; lia). nia.
  - assert (D : 0 < 2 ^ (- e)) by (apply Z.pow_pos_nonneg; lia).
    assert (Q : 0 <= Z.pos m / 2 ^ (- e)) by (apply Z.div_pos; lia).
    cbv zeta.
    destruct (_ <? _); [lia |]. destruct (_ <? _); [lia |].
    destruct (Z.even _); lia.
Qed.

(** The plane [renderCanvasWithHue] writes, for every hue, NaN included:
    four bytes a pixel and nothing more, the three channels of every pixel
    from 0 to 255 and every pixel opaque. *)
Theorem plane_is_opaque_bytes (hue : float) (w h x y : Z) :
  0 <= x < w -> 0 <= y < h ->
  let data := planeData hue w h in
  let i := (y * w + x) * 4 in
  List.length data = Z.to_nat (4 * (w * h))
  /\ isByte (byteAt data i) /\ isByte (byteAt data (i + 1))
  /\ isByte (byteAt data (i + 2)) /\ byteAt data (i + 3) = 255.
Proof.
  intros Hx Hy. cbv zeta. split; [apply length_planeData; lia |].
  unfold planeData.
  replace ((y * w + x) * 4) with ((y * w + x) * 4 + 0) at 1 by lia.
  rewrite !(byteAt_rows (planePixel hue w h) w h x y)
    by (assumption || lia || intros; apply length_planePixel).
  unfold planePixel. destruct (hslToRgb _ _ _) as [[r g] b].
  cbn [nth Z.to_nat Pos.to_nat Pos.iter_op Nat.add].
  repeat split; apply toUint8Clamp_byte.
Qed.

Lemma plane_is_opaque_bytes_witness :
  let data := planeData 126%float 20 10 in
  let i := (5 * 20 + 19) * 4 in
  List.length data = Z.to_nat (4 * (20 * 10))
  /\ isByte (byteAt data i) /\ isByte (byteAt data (i + 1))
  /\ isByte (byteAt data (i + 2)) /\ byteAt data (i + 3) = 255.
Proof.
  apply (plane_is_opaque_bytes 126%float 20 10 19 5); lia.
Defined.

(** ** The hue of the hue bar *)

(** On the bars up to 320 pixels wide the hue of every point is a whole
    number from 0 to 359. *)
Lemma barDegrees_table :
  forallb (fun w => forallb (barDegrees w) (range w))
    (map (fun k => k + 1) (range 320)) = true.
Proof. vm_compute. reflexivity. Qed.

Lemma hueOfBar_degrees (w ox : Z) :
  1 <= w <= 320 ->
  exists n, 0 <= n <= 359 /\ hueOfBar w ox = JS.ofZ n.
Proof.
  intros Hw. pose proof barDegrees_table as T.
  pose proof (clamp_range w ox ltac:(lia)) as C.
  rewrite forallb_forall in T.
  specialize (T w ltac:(apply in_map_iff; exists (w - 1); split;
                        [lia | apply range_In; lia])).
  rewrite forallb_forall in T.
  specialize (T (clamp w ox) ltac:(apply range_In; lia)).
  unfold barDegrees in T. cbv zeta in T. fold (hueOfBar w ox) in T.
  apply andb_prop in T. destruct T as [T B2].
  apply andb_prop in T. destruct T as [E B1].
  apply Leibniz.eqb_spec in E.
  exists (wholeOf (hueOfBar w ox)). split; [lia | exact E].
Qed.

(** A press on the hue bar of a component from 1 to 320 pixels wide (the
    default is 300) leaves a hue that is a whole number of degrees from 0
    to 359, wherever the pointer is, and so does an accepted drag on it. *)
Theorem hue_bar_gives_0_to_359
    (strokeLoupe : Z -> Z -> Z * Z -> list Z -> list Z)
    (i : input) (st : state) :
  1 <= width st <= 320 -> onHueBar i = true -> accepted i st = true ->
  exists n, 0 <= n <= 359 /\ hue (step strokeLoupe i st) = JS.ofZ n.
Proof.
  intros Hw K A.
  destruct (performs_outcome strokeLoupe (Edit i) st (step strokeLoupe i st)
              (conj A eq_refl)) as (r & g & b & _ & H & _).
  rewrite H.
  destruct i as [| | ox | ox | | | |]; try discriminate K;
    cbn [hueAfter]; now apply hueOfBar_degrees.
Qed.

Lemma hue_bar_gives_0_to_359_witness :
  exists n,
    0 <= n <= 359
    /\ hue (step ringStroke (HuePress 7) (connect small)) = JS.ofZ n.
Proof.
  apply (hue_bar_gives_0_to_359 ringStroke (HuePress 7) (connect small));
    [vm_compute; split; discriminate | reflexivity | reflexivity].
Defined.

(** The hue is [Math.round] of a product of doubles, not the nearest whole
    number to 360 x / W: at 7 of 80 that is 31.5, and the hue is 31. On a
    bar of 720 pixels the last point gives 360. *)
Example hue_of_bar_points :
  hueOfBar 80 7 = 31%float /\ (720 * 7 + 80) / (2 * 80) = 32
  /\ hueOfBar 720 719 = 360%float /\ hueOfBar 300 299 = 359%float.
Proof. vm_compute. repeat split; reflexivity. Qed.

(** ** The size the constructor reads *)

Lemma parseIntOr_nonzero (a : option string) (d : Z) :
  d <> 0 -> parseIntOr a d <> 0.
Proof.
  intros Hd. unfold parseIntOr.
  destruct (JS.parseInt _ None) as [[|p|p]|]; (exact Hd || discriminate).
Qed.

Lemma parseIntOr_decimal (n d : Z) :
  parseIntOr (Some (JS.toString 10 n)) d = if n =? 0 then d else n.
Proof.
  unfold parseIntOr. rewrite parseInt_toString. now destruct n.
Qed.

(** The size of a component is what [parseInt] reads in its [width] and
    [height] attributes, and 300 by 150 where the attribute is absent or is
    0. An attribute that is an integer in decimal, below 2^53 in magnitude,
    is taken as it is, a negative one too; no size is 0. *)
Theorem constructor_size (a : attributes) :
  let st := constructor a in
  (width st <> 0 /\ height st <> 0)
  /\ (attr_width a = None -> width st = 300)
  /\ (attr_height a = None -> height st = 150)
  /\ (forall n, safeInteger n -> attr_width a = Some (JS.toString 10 n) ->
                width st = if n =? 0 then 300 else n)
  /\ (forall n, safeInteger n -> attr_height a = Some (JS.toString 10 n) ->
                height st = if n =? 0 then 150 else n).
Proof.
  cbv zeta. cbn [constructor width height]. repeat split.
  - now apply parseIntOr_nonzero.
  - now apply parseIntOr_nonzero.
  - now intros ->.
  - now intros ->.
  - intros n _ ->. apply parseIntOr_decimal.
  - intros n _ ->. apply parseIntOr_decimal.
Qed.

(** A plane of a negative width has no pixel: every press on it is
    dropped. *)
Example negative_width :
  let st := connect (mkAttributes (Some "-5") None None) in
  width st = -5 /\ height st = 150
  /\ step ringStroke (PlanePress 0 0) st = set_isMouseDown true st.
Proof. vm_compute. repeat split; reflexivity. Qed.

(** ** Where a commit leaves the loupe *)

Lemma locate_nearest (data : list Z) (w h r g b x1 y1 : Z) :
  inside w h x1 y1 -> eligible data w r g b x1 y1 = true ->
  nearest data w h r g b
    (fst (locate data w h r g b)) (snd (locate data w h r g b)).
Proof.
  intros I O. unfold locate. cbn [fst snd].
  assert (Hw : 0 <= w) by (unfold inside in I; lia).
  assert (Hh : Z.of_nat (0 + Z.to_nat h) = h) by (unfold inside in I; lia).
  assert (V : scanned data w h r g b 0 (Z.of_nat 0) (mkBest 0 0 Infinity)).
  { unfold scanned. cbn [bestDist bestX bestY]. repeat split.
    intros x y Ixy B. unfold before, inside in *. lia. }
  pose proof (scanRows_visited data w h r g b (Z.to_nat h) 0
                (mkBest 0 0 Infinity) Hw Hh V) as R.
  cbv zeta in R. fold (range h) in R.
  destruct (bestDist (scanRows data w r g b (range h) (mkBest 0 0 Infinity))).
  - destruct R as (_ & _ & N). rewrite (N x1 y1 I) in O. discriminate.
  - exact R.
Qed.

(** The fields show one colour only. *)
Lemma shows_one (st : state) (r g b r' g' b' : Z) :
  shows st r g b -> shows st r' g' b' -> (r, g, b) = (r', g', b').
Proof.
  intros [F _] [F' _]. rewrite F in F'. injection F' as Er Eg Eb.
  apply (f_equal (fun s => JS.parseInt s None)) in Er, Eg, Eb.
  rewrite !parseInt_toString in Er, Eg, Eb. congruence.
Qed.

Lemma commit_loupe
    (strokeLoupe : Z -> Z -> Z * Z -> list Z -> list Z)
    (r g b : Z) (st : state) :
  let st' := commit strokeLoupe r g b st in
  loupe st'
  = locate (canvas (renderCanvasWithHue strokeLoupe (hue st') st))
      (width st) (height st) r g b.
Proof.
  cbv zeta. pose proof (commit_eq strokeLoupe r g b st) as C. cbv zeta in C.
  now rewrite C.
Qed.

(** An accepted commit of the RGB fields or of the hex field, on a plane
    with pixels, searches the plane of the hue it ends with, drawn with the
    ring where the loupe was, and leaves the loupe where the search ends:
    on the nearest match of the colour it shows, the first in scan order
    among the nearest, when there is a pixel the search may take, which
    there is for every colour that is not a gray. The colour is up to 2^25
    in magnitude and the bitmap the canvas gives is one of bytes, so that
    the distances the code computes in doubles are the integers of the
    search here. *)
Theorem commit_puts_loupe_on_nearest
    (strokeLoupe : Z -> Z -> Z * Z -> list Z -> list Z)
    (i : input) (st : state) (r g b : Z) :
  isCommit i = true -> accepted i st = true ->
  0 < width st -> 0 < height st ->
  let st' := step strokeLoupe i st in
  shows st' r g b ->
  let data := canvas (renderCanvasWithHue strokeLoupe (hue st') st) in
  bytesIn data (width st) (height st) = true -> exactDistance r g b ->
  let found :=
    nearest data (width st) (height st) r g b
      (fst (loupe st')) (snd (loupe st')) in
  loupe st' = locate data (width st) (height st) r g b
  /\ ((exists x y,
         inside (width st) (height st) x y
         /\ eligible data (width st) r g b x y = true) -> found)
  /\ (targetIsGrayscale r g b = false -> found).
Proof.
  intros K A Hw Hh. cbv zeta. intros S _ _.
  assert (L : loupe (step strokeLoupe i st)
              = locate
                  (canvas
                     (renderCanvasWithHue strokeLoupe
                        (hue (step strokeLoupe i st)) st))
                  (width st) (height st) r g b).
  { destruct i as [| | | | |vr vg vb|hex|]; try discriminate K;
      cbn [accepted step] in *.
    - destruct (JS.parseInt vr None) as [r0|] eqn:Hr; [| discriminate].
      destruct (JS.parseInt vg None) as [g0|] eqn:Hg; [| discriminate].
      destruct (JS.parseInt vb None) as [b0|] eqn:Hb; [| discriminate].
      rewrite (handleRgbInput_commit strokeLoupe
                 (set_fields (vr, vg, vb) (hexInput st) st)
                 vr vg vb r0 g0 b0 eq_refl Hr Hg Hb) in *.
      pose proof (commit_shows_and_notifies strokeLoupe r0 g0 b0
                    (set_fields (vr, vg, vb) (hexInput st) st)) as [S0 _].
      cbv zeta in S0. injection (shows_one _ _ _ _ _ _ _ S S0) as -> -> ->.
      apply (commit_loupe strokeLoupe r0 g0 b0
               (set_fields (vr, vg, vb) (hexInput st) st)).
    - destruct (testHexField_hexToRgb hex A) as (r0 & g0 & b0 & E).
      rewrite (handleHexInput_commit strokeLoupe
                 (set_fields (rgbInputs st) hex st) r0 g0 b0 A E) in *.
      pose proof (commit_shows_and_notifies strokeLoupe r0 g0 b0
                    (set_fields (rgbInputs st) hex st)) as [S0 _].
      cbv zeta in S0. injection (shows_one _ _ _ _ _ _ _ S S0) as -> -> ->.
      apply (commit_loupe strokeLoupe r0 g0 b0
               (set_fields (rgbInputs st) hex st)). }
  split; [exact L |].
  assert (N : (exists x y,
                  inside (width st) (height st) x y
                  /\ eligible
                       (canvas
                          (renderCanvasWithHue strokeLoupe
                             (hue (step strokeLoupe i st)) st))
                       (width st) r g b x y = true) ->
              nearest
                (canvas
                   (renderCanvasWithHue strokeLoupe
                      (hue (step strokeLoupe i st)) st))
                (width st) (height st) r g b
                (fst (loupe (step strokeLoupe i st)))
                (snd (loupe (step strokeLoupe i st)))).
  { intros (x & y & I & O). rewrite L.
    now apply (locate_nearest _ _ _ _ _ _ x y). }
  split; [exact N |].
  intros G. apply N. exists 0, 0. split; [unfold inside; lia |].
  unfold eligible. now rewrite G.
Qed.

Lemma commit_puts_loupe_on_nearest_witness :
  let st' := step ringStroke (HexCommit "#123456") onHue126 in
  let data := canvas (renderCanvasWithHue ringStroke (hue st') onHue126) in
  let found :=
    nearest data (width onHue126) (height onHue126) 18 52 86
      (fst (loupe st')) (snd (loupe st')) in
  loupe st' = locate data (width onHue126) (height onHue126) 18 52 86
  /\ ((exists x y,
         inside (width onHue126) (height onHue126) x y
         /\ eligible data (width onHue126) 18 52 86 x y = true) -> found)
  /\ (targetIsGrayscale 18 52 86 = false -> found).
Proof.
  apply (commit_puts_loupe_on_nearest ringStroke (HexCommit "#123456")
           onHue126 18 52 86);
    try reflexivity.
  - vm_compute. split; reflexivity.
  - unfold exactDistance. repeat split; discriminate.
Defined.

(** ** Where the pointer leaves the loupe *)

(** An accepted press or drag on the plane puts the loupe at the pointer,
    each coordinate brought back into the plane: at the pointer itself when
    it is over the plane, on the nearest point of the edge when it is not.
    A press or a drag on the hue bar and connecting, seeded or not, leave
    the loupe where it is. *)
Theorem loupe_follows_pointer
    (strokeLoupe : Z -> Z -> Z * Z -> list Z -> list Z)
    (e : entry) (st st' : state) :
  performs strokeLoupe e st st' ->
  match e with
  | Edit (PlanePress ox oy) | Edit (PlaneDrag ox oy) =>
      loupe st'
      = (Z.max 0 (Z.min (width st - 1) ox), Z.max 0 (Z.min (height st - 1) oy))
      /\ (inside (width st) (height st) ox oy -> loupe st' = (ox, oy))
  | Edit (RgbCommit _ _ _) | Edit (HexCommit _) => True
  | _ => loupe st' = loupe st
  end.
Proof.
  intros H.
  destruct (performs_outcome strokeLoupe e st st' H)
    as (r & g & b & _ & _ & _ & _ & _ & L).
  destruct e as [|[ox oy|ox oy|ox|ox| |vr vg vb|hex|f]]; cbn [loupeAfter] in L;
    try exact L; try exact I;
    (split; [exact L |]; intros [Hx Hy]; rewrite L; unfold clamp; f_equal; lia).
Qed.

Lemma loupe_follows_pointer_witness :
  let st' := step ringStroke (PlanePress 50 (-3)) (connect small) in
  loupe st' = (Z.max 0 (Z.min (20 - 1) 50), Z.max 0 (Z.min (10 - 1) (-3)))
  /\ (inside 20 10 50 (-3) -> loupe st' = (50, -3)).
Proof.
  apply (loupe_follows_pointer ringStroke (Edit (PlanePress 50 (-3)))
           (connect small)).
  split; reflexivity.
Defined.

(** ** Planes one pixel wide or one pixel high *)

Section NaN.
Local Open Scope float_scope.

Lemma nan_mul_l (x : float) : nan * x = nan.
Proof. apply Prim2SF_inj. rewrite mul_spec. reflexivity. Qed.

Lemma nan_mul_r (x : float) : x * nan = nan.
Proof.
  apply Prim2SF_inj. rewrite mul_spec. now destruct (Prim2SF x).
Qed.

Lemma nan_add_l (x : float) : nan + x = nan.
Proof. apply Prim2SF_inj. rewrite add_spec. reflexivity. Qed.

Lemma nan_add_r (x : float) : x + nan = nan.
Proof.
  apply Prim2SF_inj. rewrite add_spec. now destruct (Prim2SF x).
Qed.

Lemma nan_sub_l (x : float) : nan - x = nan.
Proof. apply Prim2SF_inj. rewrite sub_spec. reflexivity. Qed.

Lemma nan_sub_r (x : float) : x - nan = nan.
Proof.
  apply Prim2SF_inj. rewrite sub_spec. now destruct (Prim2SF x).
Qed.

Lemma nan_ltb_l (x : float) : (nan <? x) = false.
Proof. rewrite ltb_spec. reflexivity. Qed.

Lemma nan_eqb_l (x : float) : (nan =? x) = false.
Proof. rewrite eqb_spec. reflexivity. Qed.

Lemma hue2rgb_nan (t : float) : hue2rgb nan nan t = nan.
Proof.
  unfold hue2rgb.
  repeat match goal with |- context [if ?c then _ else _] => destruct c end;
    rewrite ?nan_sub_l, ?nan_mul_l, ?nan_add_l; reflexivity.
Qed.

(** With a lightness that is not a number the three channels are not
    numbers. *)
Lemma hslToRgb_nan_light (h s : float) : hslToRgb h s nan = (nan, nan, nan).
Proof.
  unfold hslToRgb. destruct (s =? 0).
  - reflexivity.
  - rewrite nan_ltb_l, nan_add_l, nan_mul_l, nan_mul_r, !nan_sub_l.
    rewrite !hue2rgb_nan. reflexivity.
Qed.

(** And so with a saturation that is not a number. *)
Lemma hslToRgb_nan_sat (h l : float) : hslToRgb h nan l = (nan, nan, nan).
Proof.
  unfold hslToRgb. rewrite nan_eqb_l.
  assert (Q : (if l <? 0.5 then l * (1 + nan) else l + nan - l * nan) = nan).
  { destruct (l <? 0.5).
    - now rewrite nan_add_r, nan_mul_r.
    - now rewrite nan_add_r, nan_sub_l. }
  rewrite Q, nan_sub_r, !hue2rgb_nan. reflexivity.
Qed.

End NaN.

(** On a plane one pixel wide the saturation of its one column is 0 / 0,
    and on a plane one pixel high the lightness of its one row is
    1 - 0 / 0: not a number. The channels [hslToRgb] returns are then not
    numbers, the image data stores them as 0, and every pixel of the plane
    is black, whatever the hue. *)
Theorem degenerate_plane_is_black (hue : float) (w h x y : Z) :
  0 <= x < w -> 0 <= y < h -> w = 1 \/ h = 1 ->
  pixelAt (planeData hue w h) w x y = (0, 0, 0).
Proof.
  intros Hx Hy D. rewrite pixelAt_planeData by assumption.
  unfold planePixel. destruct D as [-> | ->].
  - assert (x = 0) by lia. subst x.
    change (JS.ofZ 0 / JS.ofZ (1 - 1))%float with nan.
    now rewrite hslToRgb_nan_sat.
  - assert (y = 0) by lia. subst y.
    change (1 - JS.ofZ 0 / JS.ofZ (1 - 1))%float with nan.
    now rewrite hslToRgb_nan_light.
Qed.

Lemma degenerate_plane_is_black_witness :
  pixelAt (planeData 126%float 20 1) 20 5 0 = (0, 0, 0).
Proof.
  apply (degenerate_plane_is_black 126%float 20 1 5 0); [lia | lia |].
  right. reflexivity.
Defined.

(** A press on a plane of 20 by 1 shows black, and the hue stays. *)
Example one_row_plane :
  let st := connect (mkAttributes (Some "20") (Some "1") None) in
  let st' :=
    step ringStroke (PlanePress 5 0) (step ringStroke (HuePress 7) st) in
  shows st' 0 0 0 /\ hue st' = 126%float /\ loupe st' = (5, 0).
Proof. vm_compute. repeat split; reflexivity. Qed.
